(** * ParseTree: composition of word vectors along a constituency parse tree

    A shallow embedding of [src/parse_tree.py] (class [ParseTree]) and the
    properties of its binarizer, operator selector and composition engine.

    Conventions of the embedding.
    - A Python object that can sit in a tree is a [node]: a token ([str]),
      [None], a numpy vector, or an [nltk.Tree] with a label and children.
    - Vectors are an abstract type [V]; they stand for 1-D numpy arrays of a
      fixed dimension of at least two (the training script uses 25), so that
      [len] of a vector is never 1 and iterating over one yields scalars.
    - The operators of the hyponymy library ([hl.mult], [hl.mmult1]) are not
      part of the sources; they are parameters of type [V -> V -> V].
    - A raised Python exception is a value [Raise e]; methods that assign to
      [self] are state transformers over the [ParseTree] record, methods that
      only read [self] take it as an argument. *)

From Stdlib Require Import String Ascii List ZArith Lia Bool Arith.
Import ListNotations.
Open Scope string_scope.
Open Scope list_scope.

(** ** Exceptions and results *)

Inductive exn : Type :=
| AssertionError
| AttributeError
| TypeError
| IndexError
| ValueError.

(** The Python class name of an exception. *)
Definition exn_name (e : exn) : string :=
  match e with
  | AssertionError => "AssertionError"
  | AttributeError => "AttributeError"
  | TypeError => "TypeError"
  | IndexError => "IndexError"
  | ValueError => "ValueError"
  end.

Inductive result (A : Type) : Type :=
| Ok (a : A)
| Raise (e : exn).
Arguments Ok {A} a.
Arguments Raise {A} e.

Definition rbind {A B} (r : result A) (k : A -> result B) : result B :=
  match r with
  | Ok a => k a
  | Raise e => Raise e
  end.

Declare Scope result_scope.
Declare Scope method_scope.
Delimit Scope result_scope with res.
Notation "x <- r ;; k" := (rbind r (fun x => k))
  (at level 61, r at next level, right associativity) : result_scope.

(** A Python [for] loop whose body updates one variable and may raise. *)
Fixpoint for_each {A S} (body : S -> A -> result S) (xs : list A) (s : S)
  : result S :=
  match xs with
  | [] => Ok s
  | x :: xs' =>
      match body s x with
      | Ok s' => for_each body xs' s'
      | Raise e => Raise e
      end
  end.

(** ** Strings *)

(** [str.lower] on ASCII letters (labels are ASCII part-of-speech tags). *)
Definition lower_ascii (c : ascii) : ascii :=
  let n := nat_of_ascii c in
  if Nat.leb 65 n && Nat.leb n 90 then ascii_of_nat (n + 32) else c.

Fixpoint lower (s : string) : string :=
  match s with
  | EmptyString => EmptyString
  | String c s' => String (lower_ascii c) (lower s')
  end.

(** [x in xs] for a list of strings. *)
Definition str_in (x : string) (xs : list string) : bool :=
  existsb (String.eqb x) xs.

(** [c in s] for a one-character needle. *)
Fixpoint char_in (c : ascii) (s : string) : bool :=
  match s with
  | EmptyString => false
  | String d s' => Ascii.eqb c d || char_in c s'
  end.

(** The characters of a string, each as a one-character string
    (iteration over a [str]). *)
Fixpoint chars (s : string) : list string :=
  match s with
  | EmptyString => []
  | String c s' => String c EmptyString :: chars s'
  end.

(** [str.split(sep)] for a non-empty separator: the pieces between the
    non-overlapping occurrences of [sep], found left to right.  [skip] counts
    the characters of a matched separator still to be dropped and [acc] is the
    current piece, reversed. *)
Fixpoint split_scan (sep : string) (skip : nat) (acc : list ascii) (s : string)
  : list string :=
  match s with
  | EmptyString => [string_of_list_ascii (rev acc)]
  | String c s' =>
      match skip with
      | S k => split_scan sep k acc s'
      | O =>
          if String.prefix sep s
          then string_of_list_ascii (rev acc)
               :: split_scan sep (String.length sep - 1) [] s'
          else split_scan sep 0 (c :: acc) s'
      end
  end.

(** [sentence.split(delimiter)]; an empty separator raises [ValueError]. *)
Definition str_split (sentence delimiter : string) : result (list string) :=
  match delimiter with
  | EmptyString => Raise ValueError
  | _ => Ok (split_scan delimiter 0 [] sentence)
  end.

(** ** Label tables (class attributes of [ParseTree]) *)

Definition ignore_labels : list string := ["ls"; "pos"; "."; "dt"; ","].
Definition hadamard_labels : list string :=
  ["ex"; "cd"; "md"; "pdt"; "prp"; "prp$"; "rp"; "uh"; "to"].
Definition adjective_labels : list string := ["in"; "jj"].

(** [ParseTree.__is_verb]: [label[0].lower() == 'v']. *)
Definition __is_verb (lbl : string) : bool :=
  match lbl with
  | EmptyString => false
  | String c _ => if Ascii.eqb (lower_ascii c) "v"%char then true else false
  end.

(** [ParseTree.__is_noun]: the lowered label starts with [n] or is [wp]. *)
Definition __is_noun (lbl : string) : bool :=
  if String.eqb lbl "" then false
  else
    let test_label := lower lbl in
    match test_label with
    | String c _ =>
        if Ascii.eqb c "n"%char then true
        else if String.eqb test_label "wp" then true
        else false
    | EmptyString => false
    end.

(** ** Trees *)

Set Warnings "-register-all".

Section Model.

Variable V : Type.

(** The operators of the hyponymy library: [hl.mult], the default operator of
    the constructor, and [hl.mmult1], the projection operator. *)
Variable mult : V -> V -> V.
Variable mmult1 : V -> V -> V.

Inductive node : Type :=
| Str (s : string)
| NoneV
| Vec (v : V)
| Tree (lbl : string) (children : list node).

(** [tree.label()]: only an [nltk.Tree] has the method. *)
Definition label (t : node) : result string :=
  match t with
  | Tree l _ => Ok l
  | _ => Raise AttributeError
  end.

(** [tree[0]].  On a string it is the first character; on [None] it is a
    [TypeError]; a vector is never indexed by the engine (its [label()] or its
    [len] fails first) and the scalar it would give is not a [node]. *)
Definition getitem0 (t : node) : result node :=
  match t with
  | Tree _ (x :: _) => Ok x
  | Tree _ [] => Raise IndexError
  | Str (String c _) => Ok (Str (String c EmptyString))
  | Str EmptyString => Raise IndexError
  | NoneV => Raise TypeError
  | Vec _ => Raise TypeError
  end.

Definition is_Tree (t : node) : bool :=
  match t with
  | Tree _ _ => true
  | _ => false
  end.

(** The vector source: [safe_lookup] gives a vector or [None] and never
    raises. *)
Record VectorSource : Type := { safe_lookup : string -> option V }.

Record ParseTree : Type := {
  data : node;
  default_op : V -> V -> V;
  word_vectors : VectorSource
}.

(** Methods that assign to [self]. *)
Definition M (A : Type) : Type := ParseTree -> result A * ParseTree.

Definition ret {A} (a : A) : M A := fun self => (Ok a, self).

Definition bind {A B} (m : M A) (k : A -> M B) : M B :=
  fun self =>
    match m self with
    | (Ok a, self') => k a self'
    | (Raise e, self') => (Raise e, self')
    end.

Definition lift {A} (r : ParseTree -> result A) : M A :=
  fun self => (r self, self).

Definition set_default_op (op : V -> V -> V) : M unit :=
  fun self =>
    (Ok tt, {| data := data self; default_op := op;
               word_vectors := word_vectors self |}).

Definition set_data (d : node) : M unit :=
  fun self =>
    (Ok tt, {| data := d; default_op := default_op self;
               word_vectors := word_vectors self |}).

(** The same notation for sequencing in both kinds of computation. *)
Delimit Scope method_scope with M.
Notation "x <- m ;; k" := (bind m (fun x => k))
  (at level 61, m at next level, right associativity) : method_scope.

(** *** Bracketed strings *)

(** Modelled from the spec: [nltk.Tree.fromstring], a third-party function
    that is not among the sources.  Section 6 gives its input as the
    "standard parenthesized constituency notation, (LABEL (LABEL token) ...),
    arbitrary nesting and branching factor; malformed bracket nesting is a
    parse failure".  What the specification leaves open follows nltk's reader
    with its default brackets and patterns: a token is an opening bracket
    with the label that follows it, a closing bracket, or a maximal run of
    characters that are neither brackets nor white space; a stack of open
    nodes collects the children; every failure is a [ValueError]. *)
Inductive token : Type :=
| TOpen (lbl : string)
| TClose
| TLeaf (s : string).

Inductive lexmode : Type :=
| Scan
| AfterOpen
| InLabel (acc : list ascii)
| InLeaf (acc : list ascii).

(** White space of the pattern [\s] in the ASCII range. *)
Definition is_space (c : ascii) : bool :=
  let n := nat_of_ascii c in
  (Nat.leb 9 n && Nat.leb n 13) || (Nat.leb 28 n && Nat.leb n 32).

Definition flush (m : lexmode) : list token :=
  match m with
  | Scan => []
  | AfterOpen => [TOpen ""]
  | InLabel acc => [TOpen (string_of_list_ascii (rev acc))]
  | InLeaf acc => [TLeaf (string_of_list_ascii (rev acc))]
  end.

Fixpoint tokenize (m : lexmode) (s : string) : list token :=
  match s with
  | EmptyString => flush m
  | String c s' =>
      if Ascii.eqb c "("%char then flush m ++ tokenize AfterOpen s'
      else if Ascii.eqb c ")"%char then flush m ++ TClose :: tokenize Scan s'
      else if is_space c then
        match m with
        | AfterOpen => tokenize AfterOpen s'
        | _ => flush m ++ tokenize Scan s'
        end
      else
        match m with
        | Scan => tokenize (InLeaf [c]) s'
        | AfterOpen => tokenize (InLabel [c]) s'
        | InLabel acc => tokenize (InLabel (c :: acc)) s'
        | InLeaf acc => tokenize (InLeaf (c :: acc)) s'
        end
  end.

(** The reader's stack, top first; its bottom entry [(None, children)]
    collects the finished top-level tree. *)
Fixpoint read_tokens (toks : list token)
  (stack : list (option string * list node)) : result node :=
  match toks with
  | [] =>
      match stack with
      | [(_, tree :: _)] => Ok tree
      | _ => Raise ValueError
      end
  | TOpen lbl :: toks' =>
      match stack with
      | [(_, _ :: _)] => Raise ValueError
      | _ => read_tokens toks' ((Some lbl, []) :: stack)
      end
  | TClose :: toks' =>
      match stack with
      | (Some lbl, children) :: (l', siblings) :: below =>
          read_tokens toks' ((l', siblings ++ [Tree lbl children]) :: below)
      | _ => Raise ValueError
      end
  | TLeaf s :: toks' =>
      match stack with
      | (l, children) :: (_ :: _) as below =>
          read_tokens toks' ((l, children ++ [Str s]) :: below)
      | _ => Raise ValueError
      end
  end.

(** Modelled from the spec: [nltk.Tree.fromstring(s,
    remove_empty_top_bracketing=False)], by the reader above. *)
Definition Tree_fromstring (s : string) : result node :=
  read_tokens (tokenize Scan s) [(None, [])].

(** [ParseTree.pos_string_to_binary_tree]: the parsed tree, as it is. *)
Definition pos_string_to_binary_tree (pos_string : string) : result node :=
  Tree_fromstring pos_string.

(** [ParseTree.__init__]. *)
Definition __init__ (binary_parse_string : string) (wv : VectorSource)
  (op : V -> V -> V) : result ParseTree :=
  (d <- pos_string_to_binary_tree binary_parse_string;;
   Ok {| data := d; default_op := op; word_vectors := wv |})%res.

(** [ParseTree.from_sentence]; the defaults of the Python signature are
    [delimiter = " "] and [tags = None]. *)
Definition from_sentence (sentence : string) (wv : VectorSource)
  (delimiter : string) (tags : option (list string)) : result ParseTree :=
  (if negb (char_in "("%char sentence) then
     output <- __init__ "()" wv mult;;
     leaves <- str_split sentence delimiter;;
     leaves' <- match tags with
                | None => Ok (map (fun leaf => Tree "" [Str leaf]) leaves)
                | Some tags =>
                    if Nat.eqb (length tags) (length leaves)
                    then Ok (map (fun p => Tree (fst p) [Str (snd p)])
                               (combine tags leaves))
                    else Raise AssertionError
                end;;
     Ok {| data := Tree "Root" leaves'; default_op := default_op output;
           word_vectors := word_vectors output |}
   else __init__ sentence wv mult)%res.

(** *** The binarizer *)

(** [ParseTree.tree_to_binary].  The function calls itself on the value that
    [reduce] accumulates, which is a tree it has just built, so the recursion
    is not structural: [fuel] bounds its depth and [None] means that the fuel
    ran out.  [len] of [None] is a [TypeError]; a vector has no [label];
    [reduce] of an empty sequence without initial value is a [TypeError]. *)
Fixpoint tree_to_binary (fuel : nat) (tree : node) : option (result node) :=
  match fuel with
  | O => None
  | S fuel' =>
      match tree with
      | Str s => Some (Ok (Str s))
      | NoneV => Some (Raise TypeError)
      | Vec _ => Some (Raise AttributeError)
      | Tree _ [child] => tree_to_binary fuel' child
      | Tree _ [] => Some (Raise TypeError)
      | Tree lbl (first :: rest) =>
          fold_left
            (fun acc y =>
               match acc with
               | Some (Ok x) =>
                   match tree_to_binary fuel' x with
                   | Some (Ok bx) =>
                       match tree_to_binary fuel' y with
                       | Some (Ok by_) => Some (Ok (Tree lbl [bx; by_]))
                       | other => other
                       end
                   | other => other
                   end
               | other => other
               end)
            rest (Some (Ok first))
      end
  end.

(** *** The operator selector *)

(** What [__binary_operation] returns: a Python callable of two arguments. *)
Definition callable : Type := node -> node -> result node.

(** A library operator as a callable.  The operators are defined on vectors;
    what they do with another kind of operand is not known and is modelled as
    a [TypeError]. *)
Definition apply_op (op : V -> V -> V) : callable :=
  fun x y =>
    match x, y with
    | Vec a, Vec b => Ok (Vec (op a b))
    | _, _ => Raise TypeError
    end.

(** [ParseTree.__binary_operation]. *)
Definition __binary_operation (self : ParseTree) (label1 label2 : string)
  : callable :=
  if str_in label1 ignore_labels then
    if str_in label2 ignore_labels then (fun x y => Ok NoneV)
    else (fun x y => Ok y)
  else if str_in label2 ignore_labels then (fun x y => Ok x)
  else apply_op (default_op self).

(** [ParseTree.__is_adjective]. *)
Definition __is_adjective (lbl : string) : bool :=
  if String.eqb lbl "" then false
  else if str_in (lower lbl) adjective_labels then true
  else false.

(** [ParseTree.__contains_adjective]: the loop stops at the first adjective. *)
Fixpoint __contains_adjective (tree_list : list node) : result bool :=
  match tree_list with
  | [] => Ok false
  | tree :: rest =>
      (l <- label tree;;
       if __is_adjective l then Ok true else __contains_adjective rest)%res
  end.

(** [ParseTree.__tree_is_leaf]. *)
Definition __tree_is_leaf (tree : node) : result bool :=
  match tree with
  | Tree _ [x] => Ok (negb (is_Tree x))
  | Tree _ _ => Ok false
  | Str s => Ok (Nat.eqb (String.length s) 1)
  | NoneV => Raise TypeError
  | Vec _ => Ok false
  end.

(** *** The composition engine *)

Definition is_None (x : node) : bool :=
  match x with
  | NoneV => true
  | _ => false
  end.

(** [if isinstance(vector, str): vector = self.word_vectors.safe_lookup(...)] *)
Definition resolve (self : ParseTree) (x : node) : node :=
  match x with
  | Str s =>
      match safe_lookup (word_vectors self) s with
      | Some v => Vec v
      | None => NoneV
      end
  | _ => x
  end.

(** [ParseTree.__evaluate_2]. *)
Definition __evaluate_2 (self : ParseTree) (tree1 tree2 : node)
  (parent_label : string) : result node :=
  (label1 <- label tree1;;
   label2 <- label tree2;;
   x1 <- getitem0 tree1;;
   let vector1 := resolve self x1 in
   x2 <- getitem0 tree2;;
   let vector2 := resolve self x2 in
   let operation := __binary_operation self label1 label2 in
   if is_None vector1 then
     if is_None vector2 then Ok (Tree parent_label [NoneV])
     else Ok (Tree parent_label [vector2])
   else if is_None vector2 then Ok (Tree parent_label [vector1])
   else r <- operation vector1 vector2;; Ok (Tree parent_label [r]))%res.

(** [ParseTree.__evaluate_left2right]. *)
Definition __evaluate_left2right (self : ParseTree) (tree_list : list node)
  : result node :=
  match tree_list with
  | [] => Raise IndexError
  | first :: rest =>
      for_each
        (fun current_tree tree =>
           (l <- label current_tree;;
            __evaluate_2 self current_tree tree l)%res)
        rest first
  end.

(** [ParseTree.__evaluate_right2left]: from [tree_list[-1]] over
    [reversed(tree_list[:-1])]. *)
Definition __evaluate_right2left (self : ParseTree) (tree_list : list node)
  : result node :=
  match tree_list with
  | [] => Raise IndexError
  | _ :: _ =>
      for_each
        (fun current_tree tree =>
           (l <- label current_tree;;
            __evaluate_2 self tree current_tree l)%res)
        (rev (removelast tree_list)) (last tree_list NoneV)
  end.

(** [ParseTree.__evaluate_greater_than_2].  The default operator is replaced
    before the right-to-left fold and put back after it; an exception raised
    by the fold leaves the replacement in place. *)
Definition __evaluate_greater_than_2 (tree_list : list node)
  (parent_label : string) : M node :=
  (if negb (Nat.ltb 2 (length tree_list)) then lift (fun _ => Raise AssertionError)
   else
     has_adjective <- lift (fun _ => __contains_adjective tree_list);;
     if has_adjective then
       previous_default_op <- lift (fun self => Ok (default_op self));;
       _ <- set_default_op mmult1;;
       evaluated_tree <- lift (fun self => __evaluate_right2left self tree_list);;
       _ <- set_default_op previous_default_op;;
       x <- lift (fun _ => getitem0 evaluated_tree);;
       ret (Tree parent_label [x])
     else
       evaluated_tree <- lift (fun self => __evaluate_left2right self tree_list);;
       x <- lift (fun _ => getitem0 evaluated_tree);;
       ret (Tree parent_label [x]))%M.

(** The loop of [__evaluate] over the children of a tree: a leaf child is
    kept as it is, any other child is replaced by its evaluation [ev]. *)
Definition collect_children (ev : node -> M node)
  : list node -> M (list node) :=
  fix loop (cs : list node) : M (list node) :=
    match cs with
    | [] => ret []
    | child :: rest =>
        (is_leaf <- lift (fun _ => __tree_is_leaf child);;
         t <- (if is_leaf : bool then ret child else ev child);;
         ts <- loop rest;;
         ret (t :: ts))%M
    end.

(** [ParseTree.__evaluate].  Iterating over a token yields its characters,
    each of which is a leaf; iterating over [None] fails, and so does [len]
    of the first scalar of a vector. *)
Fixpoint __evaluate (tree : node) : M node :=
  (tree_list <-
     match tree with
     | Tree _ children => collect_children __evaluate children
     | Str s => ret (map Str (chars s))
     | NoneV => lift (fun _ => Raise TypeError)
     | Vec _ => lift (fun _ => Raise TypeError)
     end;;
   match tree_list with
   | [t0] =>
       x <- lift (fun _ => getitem0 t0);;
       vector1 <- lift (fun self => Ok (resolve self x));;
       l <- lift (fun _ => label tree);;
       ret (Tree l [vector1])
   | [t0; t1] =>
       l <- lift (fun _ => label tree);;
       lift (fun self => __evaluate_2 self t0 t1 l)
   | _ =>
       l <- lift (fun _ => label tree);;
       __evaluate_greater_than_2 tree_list l
   end)%M.

(** [ParseTree.evaluate]. *)
Definition evaluate : M unit :=
  fun self => (d <- __evaluate (data self);; set_data d)%M self.

End Model.

Arguments Str {V} s.
Arguments NoneV {V}.
Arguments Vec {V} v.
Arguments Tree {V} lbl children.
Arguments label {V} t.
Arguments getitem0 {V} t.
Arguments is_Tree {V} t.
Arguments safe_lookup {V} v s.
Arguments Build_VectorSource {V} safe_lookup.
Arguments data {V} p.
Arguments default_op {V} p.
Arguments word_vectors {V} p.
Arguments Build_ParseTree {V} data default_op word_vectors.
Arguments ret {V A} a.
Arguments bind {V A B} m k.
Arguments lift {V A} r.
Arguments set_default_op {V} op.
Arguments set_data {V} d.
Arguments Tree_fromstring {V} s.
Arguments pos_string_to_binary_tree {V} pos_string.
Arguments __init__ {V} binary_parse_string wv op.
Arguments from_sentence {V} mult sentence wv delimiter tags.
Arguments tree_to_binary {V} fuel tree.
Arguments apply_op {V} op.
Arguments __binary_operation {V} self label1 label2.
Arguments __contains_adjective {V} tree_list.
Arguments __tree_is_leaf {V} tree.
Arguments is_None {V} x.
Arguments resolve {V} self x.
Arguments __evaluate_2 {V} self tree1 tree2 parent_label.
Arguments __evaluate_left2right {V} self tree_list.
Arguments __evaluate_right2left {V} self tree_list.
Arguments __evaluate_greater_than_2 {V} mmult1 tree_list parent_label.
Arguments collect_children {V} ev cs : rename.
Arguments __evaluate {V} mmult1 tree.
Arguments evaluate {V} mmult1.

Delimit Scope method_scope with M.
Notation "x <- m ;; k" := (bind m (fun x => k))
  (at level 61, m at next level, right associativity) : method_scope.

(** ** Notions used in the statements *)

Section Notions.

Context {V : Type}.

(** [self] with its default operator replaced. *)
Definition with_default_op (self : ParseTree V) (op : V -> V -> V)
  : ParseTree V :=
  {| data := data self; default_op := op; word_vectors := word_vectors self |}.

(** [self] with its tree replaced. *)
Definition with_data (self : ParseTree V) (d : node V) : ParseTree V :=
  {| data := d; default_op := default_op self;
     word_vectors := word_vectors self |}.

(** A vector or [None]: what a resolved payload is. *)
Definition is_value (x : node V) : bool :=
  match x with
  | Vec _ | NoneV => true
  | _ => false
  end.

(** A tree with one payload that is not itself a tree: a tagged leaf of the
    input, or the result of an evaluation.  These are the members of a
    [tree_list] whose children are all trees. *)
Definition unit_tree (t : node V) : bool :=
  match t with
  | Tree _ [x] => negb (is_Tree x)
  | _ => false
  end.

(** The label of the node is in the adjective set, case-insensitively. *)
Definition adjective_labelled (t : node V) : bool :=
  match t with
  | Tree l _ => str_in (lower l) adjective_labels
  | _ => false
  end.

(** One pairing of a fold: the running composite [current] with the next
    child, wrapped under the label that the composite carries. *)
Definition pair_left (self : ParseTree V) (current tree : node V)
  : result (node V) :=
  (l <- label current;; __evaluate_2 self current tree l)%res.

Definition pair_right (self : ParseTree V) (tree current : node V)
  : result (node V) :=
  (l <- label current;; __evaluate_2 self tree current l)%res.

(** The folds as the specification words them: the right-to-left fold
    combines the two rightmost children first and continues leftward, the
    left-to-right fold combines the two leftmost first and continues
    rightward.  They are the right and left folds of the standard library
    over results. *)
Definition right_to_left_fold (self : ParseTree V) (tree_list : list (node V))
  : result (node V) :=
  fold_right
    (fun tree acc => (current <- acc;; pair_right self tree current)%res)
    (Ok (last tree_list NoneV)) (removelast tree_list).

Definition left_to_right_fold (self : ParseTree V) (tree_list : list (node V))
  : result (node V) :=
  fold_left
    (fun acc tree => (current <- acc;; pair_left self current tree)%res)
    (tl tree_list) (Ok (hd NoneV tree_list)).

(** What [__evaluate] does with [tree_list] once its loop has ended. *)
Definition after_loop (mmult1 : V -> V -> V) (tree : node V)
  (tree_list : list (node V)) : M V (node V) :=
  (match tree_list with
   | [t0] =>
       x <- lift (fun _ => getitem0 t0);;
       vector1 <- lift (fun self => Ok (resolve self x));;
       l <- lift (fun _ => label tree);;
       ret (Tree l [vector1])
   | [t0; t1] =>
       l <- lift (fun _ => label tree);;
       lift (fun self => __evaluate_2 self t0 t1 l)
   | _ =>
       l <- lift (fun _ => label tree);;
       __evaluate_greater_than_2 mmult1 tree_list l
   end)%M.

(** A tagged leaf of an input tree: a tree over one token. *)
Definition preterminal (t : node V) : bool :=
  match t with
  | Tree _ [Str _] => true
  | _ => false
  end.

(** A well-formed input of the engine: an internal node with at least one
    child, each child a tagged leaf or again such an internal node. *)
Fixpoint well_formed (t : node V) : bool :=
  match t with
  | Tree _ children =>
      negb (Nat.eqb (length children) 0)
      && forallb (fun c => preterminal c || well_formed c) children
  | _ => false
  end.

(** The evaluation of a well-formed tree returns one node under the label of
    the tree, with a resolved payload, and leaves [self] as it was. *)
Definition evaluates_to_single_node (mmult1 : V -> V -> V) (t : node V)
  : Prop :=
  well_formed t = true ->
  forall self, exists l v,
    label t = Ok l /\ is_value v = true /\
    __evaluate mmult1 t self = (Ok (Tree l [v]), self).

(** Same branching and same labels; payloads that are not trees are not
    compared. *)
Fixpoint same_shape (a b : node V) : bool :=
  match a, b with
  | Tree l cs, Tree l' cs' =>
      String.eqb l l'
      && (fix go (xs ys : list (node V)) : bool :=
            match xs, ys with
            | [], [] => true
            | x :: xs', y :: ys' => same_shape x y && go xs' ys'
            | _, _ => false
            end) cs cs'
  | Tree _ _, _ => false
  | _, Tree _ _ => false
  | _, _ => true
  end.

(** Every tree node has at most two children. *)
Fixpoint at_most_binary (t : node V) : bool :=
  match t with
  | Tree _ children =>
      Nat.leb (length children) 2 && forallb at_most_binary children
  | _ => true
  end.

(** Every tree node has exactly two children and every leaf is a token:
    the trees that [tree_to_binary] produces. *)
Fixpoint strictly_binary (t : node V) : bool :=
  match t with
  | Str _ => true
  | Tree _ [a; b] => strictly_binary a && strictly_binary b
  | _ => false
  end.

Fixpoint height (t : node V) : nat :=
  match t with
  | Tree _ children => S (fold_right (fun c h => Nat.max (height c) h) 0 children)
  | _ => 0
  end.

(** The number of nodes and tokens of a tree. *)
Fixpoint size (t : node V) : nat :=
  match t with
  | Tree _ children => S (fold_right (fun c n => size c + n) 0 children)
  | _ => 1
  end.

(** An input of the binarizer: every leaf is a token and every tree node has
    at least one child. *)
Fixpoint token_tree (t : node V) : bool :=
  match t with
  | Str _ => true
  | Tree _ children =>
      negb (Nat.eqb (length children) 0) && forallb token_tree children
  | _ => false
  end.

(** One step of the [reduce] in [tree_to_binary], with fuel [n]. *)
Definition reduce_step (n : nat) (lbl : string)
  (acc : option (result (node V))) (y : node V) : option (result (node V)) :=
  match acc with
  | Some (Ok x) =>
      match tree_to_binary n x with
      | Some (Ok bx) =>
          match tree_to_binary n y with
          | Some (Ok by_) => Some (Ok (Tree lbl [bx; by_]))
          | other => other
          end
      | other => other
      end
  | other => other
  end.

(** The tokens of a tree, from left to right. *)
Fixpoint tokens (t : node V) : list string :=
  match t with
  | Str s => [s]
  | Tree _ children => flat_map tokens children
  | _ => []
  end.

(** The number of tree nodes. *)
Fixpoint internal_nodes (t : node V) : nat :=
  match t with
  | Tree _ children =>
      S (fold_right (fun c n => internal_nodes c + n) 0 children)
  | _ => 0
  end.

(** A member of a [tree_list]: a unit tree, or something that is not a tree
    (a one-character token that the loop took for a leaf). *)
Definition list_item (t : node V) : bool := unit_tree t || negb (is_Tree t).

(** A unit tree whose payload resolves to [None]. *)
Definition absent_unit (self : ParseTree V) (t : node V) : bool :=
  match t with
  | Tree _ [x] => is_None (resolve self x)
  | _ => false
  end.

(** A tree that carries a vector under a label. *)
Definition vector_tree (p : string * V) : node V := Tree (fst p) [Vec (snd p)].

(** The label of the pair is not in the ignore list. *)
Definition kept (p : string * V) : bool := negb (str_in (fst p) ignore_labels).

(** What the loop of [__evaluate] appends to [tree_list] for a child [c]
    when the child is met in the state [self]: a leaf itself, and for any
    other child the result of its evaluation. *)
Definition collected (mmult1 : V -> V -> V) (self : ParseTree V)
  (c r : node V) : Prop :=
  (__tree_is_leaf c = Ok true /\ r = c) \/
  (__tree_is_leaf c = Ok false /\
   exists self', __evaluate mmult1 c self = (Ok r, self')).

(** A tagged leaf as [from_sentence] builds it, from a tag and a token. *)
Definition tagged_leaf (p : string * string) : node V :=
  Tree (fst p) [Str (snd p)].

(** The tags of a flat sentence of [n] pieces: the tags given, or the empty
    tag for every piece when none are given. *)
Definition flat_labels (tags : option (list string)) (n : nat) : list string :=
  match tags with
  | Some tg => tg
  | None => repeat "" n
  end.

(** An entry of a flat node: a tag, a token and the vector of the token. *)
Definition entry : Type := (string * string) * V.

Definition entry_leaf (e : entry) : node V := tagged_leaf (fst e).

(** The vector source has the vector of the entry for its token. *)
Definition known (self : ParseTree V) (e : entry) : Prop :=
  safe_lookup (word_vectors self) (snd (fst e)) = Some (snd e).

Definition kept_tag (e : entry) : bool :=
  negb (str_in (fst (fst e)) ignore_labels).

Definition adjective_tag (e : entry) : bool :=
  str_in (lower (fst (fst e))) adjective_labels.

(** The outcome of a method that leaves [self] alone, or raises with the
    projection operator in place of the default operator. *)
Definition self_or_projection {A : Type} (mmult1 : V -> V -> V)
  (self : ParseTree V) (outcome : result A * ParseTree V) : Prop :=
  snd outcome = self \/
  (exists e, fst outcome = Raise e) /\ snd outcome = with_default_op self mmult1.

(** Whenever the evaluation of [t] returns, [t] is a tree and the result is
    one node under its label with a resolved payload. *)
Definition returns_labelled_value (mmult1 : V -> V -> V) (t : node V) : Prop :=
  forall self (r : node V) self',
    __evaluate mmult1 t self = (Ok r, self') ->
    exists l cs v, t = Tree l cs /\ r = Tree l [v] /\ is_value v = true.

(** With fuel [n] for its size, a tree of tokens is binarized into a tree
    with two children at every node that is less high than the input is
    large. *)
Definition binarized_within (n : nat) (t : node V) : Prop :=
  token_tree t = true -> size t <= n ->
  exists t', tree_to_binary n t = Some (Ok t') /\
             strictly_binary t' = true /\ height t' < size t.

(** With fuel [n] for its size, the binarizer returns for every input: a
    tree with two children at every node, or a [TypeError] or
    [AttributeError]; the fuel does not run out. *)
Definition binarizer_outcome (n : nat) (t : node V) : Prop :=
  size t <= n ->
  (exists t', tree_to_binary n t = Some (Ok t') /\
              strictly_binary t' = true /\ height t' < size t) \/
  (exists e, tree_to_binary n t = Some (Raise e) /\
             (e = TypeError \/ e = AttributeError)).

(** Induction on trees with the hypothesis for every child. *)
Section node_induction.

Variable P : node V -> Prop.
Hypothesis P_Str : forall s, P (Str s).
Hypothesis P_None : P NoneV.
Hypothesis P_Vec : forall v, P (Vec v).
Hypothesis P_Tree : forall l cs, Forall P cs -> P (Tree l cs).

Fixpoint node_children_ind (t : node V) : P t :=
  match t with
  | Str s => P_Str s
  | NoneV => P_None
  | Vec v => P_Vec v
  | Tree l cs =>
      P_Tree l cs
        ((fix go (xs : list (node V)) : Forall P xs :=
            match xs with
            | [] => Forall_nil P
            | x :: xs' => Forall_cons x (node_children_ind x) (go xs')
            end) cs)
  end.

End node_induction.

End Notions.

Arguments entry : clear implicits.

(** ** A concrete vector source

    Integers stand for vectors, multiplication for the default operator and
    subtraction, which is not commutative, for the projection operator. *)
Module Demo.

Definition vectors : VectorSource Z :=
  {| safe_lookup := fun token =>
       if String.eqb token "cat" then Some 3%Z
       else if String.eqb token "sits" then Some 5%Z
       else if String.eqb token "red" then Some 2%Z
       else if String.eqb token "ball" then Some 7%Z
       else if String.eqb token "flies" then Some 11%Z
       else None |}.

Definition engine (d : node Z) : ParseTree Z :=
  {| data := d; default_op := Z.mul; word_vectors := vectors |}.

Definition sentence_tree : node Z :=
  Tree "S" [Tree "NP" [Tree "DT" [Str "the"]; Tree "NN" [Str "cat"]];
            Tree "VP" [Tree "VBZ" [Str "sits"]]].

Definition flat_tree : node Z :=
  Tree "Root" [Tree "jj" [Str "red"]; Tree "nn" [Str "ball"];
               Tree "vbz" [Str "flies"]].

Definition determiner_tree : node Z :=
  Tree "Root" [Tree "dt" [Str "red"]; Tree "nn" [Str "ball"];
               Tree "vbz" [Str "flies"]].

Definition bracketed : string := "(S (JJ red) (NN ball) (VBZ flies))".

Definition bracketed_tree : node Z :=
  Tree "S" [Tree "JJ" [Str "red"]; Tree "NN" [Str "ball"];
            Tree "VBZ" [Str "flies"]].

End Demo.

(** * Properties *)

Section Properties.

Context {V : Type}.
Variable mult : V -> V -> V.
Variable mmult1 : V -> V -> V.

Implicit Types (self : ParseTree V) (t : node V) (tree_list : list (node V)).

(** ** Membership and case *)

Lemma str_in_In (x : string) (xs : list string) :
  str_in x xs = true <-> In x xs.
Proof.
  unfold str_in. rewrite existsb_exists. split.
  - intros [y [Hy Heq]]. apply String.eqb_eq in Heq. now subst.
  - intros H. exists x. split; [assumption | apply String.eqb_refl].
Qed.

Lemma str_in_not_In (x : string) (xs : list string) :
  str_in x xs = false <-> ~ In x xs.
Proof.
  rewrite <- str_in_In. destruct (str_in x xs); split; intro H;
    try reflexivity; try discriminate; try (intro; discriminate).
  exfalso. now apply H.
Qed.

Lemma is_adjective_lower (l : string) :
  __is_adjective l = str_in (lower l) adjective_labels.
Proof.
  unfold __is_adjective. destruct l as [| c l]; [reflexivity |].
  cbn [String.eqb]. now destruct (str_in _ _).
Qed.

(** ** The operator selector *)

(** C3. Operator selector: on two vector operands the selected operation
    gives [None] when both labels are in the ignore list, its second argument
    when only the first label is, its first argument when only the second
    label is, and otherwise the result of the default operator that is
    active in [self]. *)
Theorem binary_operation_rules self (label1 label2 : string) (x y : V) :
  (In label1 ignore_labels -> In label2 ignore_labels ->
   __binary_operation self label1 label2 (Vec x) (Vec y) = Ok NoneV) /\
  (In label1 ignore_labels -> ~ In label2 ignore_labels ->
   __binary_operation self label1 label2 (Vec x) (Vec y) = Ok (Vec y)) /\
  (~ In label1 ignore_labels -> In label2 ignore_labels ->
   __binary_operation self label1 label2 (Vec x) (Vec y) = Ok (Vec x)) /\
  (~ In label1 ignore_labels -> ~ In label2 ignore_labels ->
   __binary_operation self label1 label2 (Vec x) (Vec y)
   = Ok (Vec (default_op self x y))).
Proof.
  unfold __binary_operation.
  repeat split; intros H1 H2;
    repeat match goal with
      | H : In _ _ |- _ => apply str_in_In in H; rewrite H
      | H : ~ In _ _ |- _ => apply str_in_not_In in H; rewrite H
      end; reflexivity.
Qed.

(** The ignore list is compared with the label as it is written; the
    adjective test lowers the label first. *)
Lemma ignore_list_as_written self (x y : V) :
  __binary_operation self "dt" "NN" (Vec x) (Vec y) = Ok (Vec y) /\
  __binary_operation self "DT" "NN" (Vec x) (Vec y)
  = Ok (Vec (default_op self x y)).
Proof. split; reflexivity. Qed.

Lemma is_adjective_case (l l' : string) :
  lower l = lower l' -> __is_adjective l = __is_adjective l'.
Proof. intros H. now rewrite !is_adjective_lower, H. Qed.

(** ** Two operands *)

(** C2. Two-child evaluation with missing operands: when both payloads
    resolve to [None] the result is [None]; when exactly one does, the result
    is the other resolved payload, whatever the labels of the two children
    and the parent label are. *)
Theorem evaluate_2_absent self (label1 label2 parent_label : string)
  (p1 p2 : node V) (more1 more2 : list (node V)) :
  (resolve self p1 = NoneV -> resolve self p2 = NoneV ->
   __evaluate_2 self (Tree label1 (p1 :: more1)) (Tree label2 (p2 :: more2))
     parent_label = Ok (Tree parent_label [NoneV])) /\
  (resolve self p1 = NoneV -> resolve self p2 <> NoneV ->
   __evaluate_2 self (Tree label1 (p1 :: more1)) (Tree label2 (p2 :: more2))
     parent_label = Ok (Tree parent_label [resolve self p2])) /\
  (resolve self p1 <> NoneV -> resolve self p2 = NoneV ->
   __evaluate_2 self (Tree label1 (p1 :: more1)) (Tree label2 (p2 :: more2))
     parent_label = Ok (Tree parent_label [resolve self p1])).
Proof.
  unfold __evaluate_2. cbn [label getitem0 rbind].
  repeat split; intros H1 H2.
  - now rewrite H1, H2.
  - rewrite H1. cbn [is_None].
    destruct (resolve self p2); reflexivity.
  - rewrite H2. cbn [is_None].
    destruct (resolve self p1); reflexivity.
Qed.

(** ** Loops and folds *)

Lemma for_each_app {A S} (body : S -> A -> result S) (xs ys : list A) (s : S) :
  for_each body (xs ++ ys) s
  = (s' <- for_each body xs s;; for_each body ys s')%res.
Proof.
  revert s. induction xs as [| x xs IH]; intros s; cbn; [reflexivity |].
  destruct (body s x); [apply IH | reflexivity].
Qed.

Lemma fold_left_Raise {A S} (f : S -> A -> result S) (xs : list A) (e : exn) :
  fold_left (fun acc x => (s <- acc;; f s x)%res) xs (Raise e) = Raise e.
Proof. induction xs as [| x xs IH]; cbn; [reflexivity | apply IH]. Qed.

Lemma for_each_fold_left {A S} (body : S -> A -> result S) (xs : list A) (s : S) :
  for_each body xs s
  = fold_left (fun acc x => (s' <- acc;; body s' x)%res) xs (Ok s).
Proof.
  revert s. induction xs as [| x xs IH]; intros s; cbn; [reflexivity |].
  destruct (body s x); [apply IH | now rewrite fold_left_Raise].
Qed.

Lemma for_each_rev_fold_right {A S} (body : S -> A -> result S) (xs : list A)
  (s : S) :
  for_each body (rev xs) s
  = fold_right (fun x acc => (s' <- acc;; body s' x)%res) (Ok s) xs.
Proof.
  induction xs as [| x xs IH]; cbn; [reflexivity |].
  rewrite for_each_app, IH. cbn.
  destruct (fold_right _ _ xs); cbn; [| reflexivity].
  now destruct (body a x).
Qed.

(** The loops of the two fold methods are the folds of the specification,
    on every list and with the same exceptions. *)
Lemma evaluate_left2right_fold self tree_list :
  tree_list <> [] ->
  __evaluate_left2right self tree_list = left_to_right_fold self tree_list.
Proof.
  destruct tree_list as [| first rest]; [congruence | intros _].
  unfold __evaluate_left2right, left_to_right_fold. cbn [hd tl].
  apply for_each_fold_left.
Qed.

Lemma evaluate_right2left_fold self tree_list :
  tree_list <> [] ->
  __evaluate_right2left self tree_list = right_to_left_fold self tree_list.
Proof.
  destruct tree_list as [| first rest]; [congruence | intros _].
  unfold __evaluate_right2left, right_to_left_fold.
  apply for_each_rev_fold_right.
Qed.

(** ** Unit trees *)

Lemma unit_tree_inv t :
  unit_tree t = true -> exists l x, t = Tree l [x] /\ is_Tree x = false.
Proof.
  destruct t as [| | | l [| x [| y cs]]]; cbn; try discriminate.
  intros H. exists l, x. split; [reflexivity |].
  now destruct (is_Tree x).
Qed.

Lemma resolve_value self (x : node V) :
  is_Tree x = false -> is_value (resolve self x) = true.
Proof.
  destruct x; cbn; try reflexivity; try discriminate.
  now destruct (safe_lookup _ _).
Qed.

Lemma value_not_Tree (x : node V) : is_value x = true -> is_Tree x = false.
Proof. now destruct x. Qed.

Lemma binary_operation_value self (l1 l2 : string) (x y : node V) :
  is_value x = true -> is_value y = true -> is_None x = false ->
  is_None y = false ->
  exists r, __binary_operation self l1 l2 x y = Ok r /\ is_value r = true.
Proof.
  intros Hx Hy Nx Ny. unfold __binary_operation.
  destruct x, y; try discriminate.
  destruct (str_in l1 _), (str_in l2 _); eexists; split; reflexivity.
Qed.

(** On unit trees [__evaluate_2] returns a unit tree under the parent label
    whose payload is a vector or [None]. *)
Lemma evaluate_2_unit self (t1 t2 : node V) (parent_label : string) :
  unit_tree t1 = true -> unit_tree t2 = true ->
  exists v, is_value v = true /\
            __evaluate_2 self t1 t2 parent_label = Ok (Tree parent_label [v]).
Proof.
  intros H1 H2.
  destruct (unit_tree_inv _ H1) as [l1 [x1 [-> T1]]].
  destruct (unit_tree_inv _ H2) as [l2 [x2 [-> T2]]].
  unfold __evaluate_2. cbn [label getitem0 rbind].
  pose proof (resolve_value self _ T1) as V1.
  pose proof (resolve_value self _ T2) as V2.
  destruct (is_None (resolve self x1)) eqn:N1;
    destruct (is_None (resolve self x2)) eqn:N2.
  - now exists NoneV.
  - now exists (resolve self x2).
  - now exists (resolve self x1).
  - destruct (binary_operation_value self l1 l2 _ _ V1 V2 N1 N2) as [r [-> Hr]].
    now exists r.
Qed.

Lemma value_unit_tree (l : string) (v : node V) :
  is_value v = true -> unit_tree (Tree l [v]) = true.
Proof. intros H. cbn. now rewrite (value_not_Tree _ H). Qed.

Lemma label_unit_tree t :
  unit_tree t = true -> exists l, label t = Ok l.
Proof.
  intros H. destruct (unit_tree_inv _ H) as [l [x [-> _]]]. now exists l.
Qed.

(** A fold step on unit trees keeps the label of the running composite. *)
Lemma pair_left_unit self (current tree : node V) (l : string) :
  unit_tree current = true -> label current = Ok l -> unit_tree tree = true ->
  exists v, is_value v = true /\ pair_left self current tree = Ok (Tree l [v]).
Proof.
  intros Hc Hl Ht. unfold pair_left. rewrite Hl. cbn [rbind].
  now apply evaluate_2_unit.
Qed.

Lemma pair_right_unit self (tree current : node V) (l : string) :
  unit_tree current = true -> label current = Ok l -> unit_tree tree = true ->
  exists v, is_value v = true /\ pair_right self tree current = Ok (Tree l [v]).
Proof.
  intros Hc Hl Ht. unfold pair_right. rewrite Hl. cbn [rbind].
  now apply evaluate_2_unit.
Qed.

(** A loop that starts from a unit tree with a resolved payload and runs
    over unit trees ends in such a tree, still under the label it started
    with. *)
Lemma for_each_left_value self (rest : list (node V)) (l : string)
  (v : node V) :
  is_value v = true -> forallb unit_tree rest = true ->
  exists x, is_value x = true /\
    for_each (fun current tree => pair_left self current tree) rest (Tree l [v])
    = Ok (Tree l [x]).
Proof.
  revert v. induction rest as [| t rest IH]; intros v Hv Hr.
  - now exists v.
  - cbn in Hr. apply andb_prop in Hr as [Ht Hr]. cbn [for_each].
    destruct (pair_left_unit self (Tree l [v]) t l (value_unit_tree l v Hv)
                eq_refl Ht) as [w [Hw ->]].
    now apply IH.
Qed.

Lemma for_each_right_value self (before : list (node V)) (l : string)
  (v : node V) :
  is_value v = true -> forallb unit_tree before = true ->
  exists x, is_value x = true /\
    for_each (fun current tree => pair_right self tree current) before
      (Tree l [v])
    = Ok (Tree l [x]).
Proof.
  revert v. induction before as [| t before IH]; intros v Hv Hr.
  - now exists v.
  - cbn in Hr. apply andb_prop in Hr as [Ht Hr]. cbn [for_each].
    destruct (pair_right_unit self t (Tree l [v]) l (value_unit_tree l v Hv)
                eq_refl Ht) as [w [Hw ->]].
    now apply IH.
Qed.

(** The same from any unit tree; the payload is resolved as soon as one
    pairing has taken place. *)
Lemma for_each_left_unit self (rest : list (node V)) (first : node V)
  (l : string) :
  unit_tree first = true -> label first = Ok l ->
  forallb unit_tree rest = true ->
  exists x, is_Tree x = false /\ (rest <> [] -> is_value x = true) /\
    for_each (fun current tree => pair_left self current tree) rest first
    = Ok (Tree l [x]).
Proof.
  intros Hf Hl Hr. destruct rest as [| t rest].
  - destruct (unit_tree_inv _ Hf) as [l0 [x [-> Hx]]].
    cbn in Hl. injection Hl as ->. exists x.
    split; [assumption | split; [congruence | reflexivity]].
  - cbn in Hr. apply andb_prop in Hr as [Ht Hr]. cbn [for_each].
    destruct (pair_left_unit self first t l Hf Hl Ht) as [v [Hv ->]].
    destruct (for_each_left_value self rest l v Hv Hr) as [x [Hx E]].
    exists x.
    split; [now apply value_not_Tree | split; [intros _; assumption | exact E]].
Qed.

Lemma for_each_right_unit self (before : list (node V)) (final : node V)
  (l : string) :
  unit_tree final = true -> label final = Ok l ->
  forallb unit_tree before = true ->
  exists x, is_Tree x = false /\ (before <> [] -> is_value x = true) /\
    for_each (fun current tree => pair_right self tree current) before final
    = Ok (Tree l [x]).
Proof.
  intros Hf Hl Hr. destruct before as [| t before].
  - destruct (unit_tree_inv _ Hf) as [l0 [x [-> Hx]]].
    cbn in Hl. injection Hl as ->. exists x.
    split; [assumption | split; [congruence | reflexivity]].
  - cbn in Hr. apply andb_prop in Hr as [Ht Hr]. cbn [for_each].
    destruct (pair_right_unit self t final l Hf Hl Ht) as [v [Hv ->]].
    destruct (for_each_right_value self before l v Hv Hr) as [x [Hx E]].
    exists x.
    split; [now apply value_not_Tree | split; [intros _; assumption | exact E]].
Qed.

Lemma forallb_rev {A} (f : A -> bool) (xs : list A) :
  forallb f (rev xs) = forallb f xs.
Proof.
  induction xs as [| x xs IH]; [reflexivity |].
  cbn. rewrite forallb_app, IH. cbn. rewrite andb_true_r. apply andb_comm.
Qed.

Lemma forallb_removelast_last {A} (f : A -> bool) (xs : list A) (d : A) :
  xs <> [] -> forallb f xs = true ->
  forallb f (removelast xs) = true /\ f (last xs d) = true.
Proof.
  intros Hne H. destruct (exists_last Hne) as [ys [y ->]].
  rewrite removelast_last, last_last. rewrite forallb_app in H.
  apply andb_prop in H as [H1 H2]. cbn in H2. rewrite andb_true_r in H2.
  now split.
Qed.

Lemma evaluate_left2right_unit self tree_list :
  tree_list <> [] -> forallb unit_tree tree_list = true ->
  exists l x, label (hd NoneV tree_list) = Ok l /\ is_Tree x = false /\
    (1 < length tree_list -> is_value x = true) /\
    __evaluate_left2right self tree_list = Ok (Tree l [x]).
Proof.
  destruct tree_list as [| first rest]; [congruence | intros _ H].
  cbn in H. apply andb_prop in H as [Hf Hr].
  destruct (label_unit_tree _ Hf) as [l Hl]. exists l.
  destruct (for_each_left_unit self rest first l Hf Hl Hr) as [x [Hx [Hv E]]].
  exists x. cbn [hd]. repeat split; try assumption.
  intros Hlen. apply Hv. destruct rest; [cbn in Hlen; lia | congruence].
Qed.

Lemma evaluate_right2left_unit self tree_list :
  tree_list <> [] -> forallb unit_tree tree_list = true ->
  exists l x, label (last tree_list NoneV) = Ok l /\ is_Tree x = false /\
    (1 < length tree_list -> is_value x = true) /\
    __evaluate_right2left self tree_list = Ok (Tree l [x]).
Proof.
  intros Hne H.
  destruct (forallb_removelast_last _ _ NoneV Hne H) as [Hb Hf].
  destruct (label_unit_tree _ Hf) as [l Hl]. exists l.
  rewrite <- forallb_rev in Hb.
  destruct (for_each_right_unit self _ _ l Hf Hl Hb) as [x [Hx [Hv E]]].
  exists x. repeat split; try assumption.
  - intros Hlen. apply Hv. intros Hnil.
    apply (f_equal (@length _)) in Hnil. rewrite length_rev in Hnil.
    destruct (exists_last Hne) as [ys [y ->]].
    rewrite removelast_last in Hnil. rewrite length_app in Hlen.
    cbn in Hlen, Hnil. lia.
  - destruct tree_list; [congruence | exact E].
Qed.

Lemma contains_adjective_unit tree_list :
  forallb unit_tree tree_list = true ->
  __contains_adjective tree_list = Ok (existsb adjective_labelled tree_list).
Proof.
  induction tree_list as [| t rest IH]; [reflexivity |]. intros H.
  cbn in H. apply andb_prop in H as [Ht Hr].
  destruct (unit_tree_inv _ Ht) as [l [x [-> _]]].
  cbn [__contains_adjective label rbind existsb adjective_labelled].
  rewrite is_adjective_lower.
  destruct (str_in (lower l) adjective_labels); [reflexivity | now apply IH].
Qed.

Lemma with_default_op_restore self (op : V -> V -> V) :
  with_default_op (with_default_op self op) (default_op self) = self.
Proof. now destruct self. Qed.

(** ** More than two children *)

(** On a list of more than two unit trees the method returns: the loop of
    the chosen direction yields a unit tree with a resolved payload, which
    is wrapped under the parent label, and [self] is restored. *)
Lemma evaluate_greater_than_2_unit self tree_list (parent_label : string) :
  2 < length tree_list ->
  forallb unit_tree tree_list = true ->
  exists l x,
    is_value x = true /\
    (if existsb adjective_labelled tree_list
     then __evaluate_right2left (with_default_op self mmult1) tree_list
     else __evaluate_left2right self tree_list) = Ok (Tree l [x]) /\
    __evaluate_greater_than_2 mmult1 tree_list parent_label self
    = (Ok (Tree parent_label [x]), self).
Proof.
  intros Hlen Hunit.
  assert (Hne : tree_list <> [])
    by (destruct tree_list; [cbn in Hlen; lia | congruence]).
  assert (H1 : 1 < length tree_list) by lia.
  unfold __evaluate_greater_than_2.
  apply Nat.ltb_lt in Hlen. rewrite Hlen. cbn [negb].
  unfold bind at 1. unfold lift at 1.
  rewrite (contains_adjective_unit _ Hunit).
  destruct (existsb adjective_labelled tree_list).
  - destruct (evaluate_right2left_unit (with_default_op self mmult1) _ Hne Hunit)
      as [l [x [_ [_ [Hv E]]]]].
    exists l, x. split; [now apply Hv |]. split; [exact E |].
    unfold bind, lift, set_default_op, ret. cbn [fst snd].
    fold (with_default_op self mmult1). rewrite E. cbn [getitem0].
    fold (with_default_op (with_default_op self mmult1) (default_op self)).
    now rewrite with_default_op_restore.
  - destruct (evaluate_left2right_unit self _ Hne Hunit)
      as [l [x [_ [_ [Hv E]]]]].
    exists l, x. split; [now apply Hv |]. split; [exact E |].
    unfold bind, lift, ret. rewrite E. reflexivity.
Qed.

(** C1. A node with more than two children: when some child carries an
    adjective label the result is the right-to-left fold of the children,
    computed with the projection operator as the default operator of every
    step; otherwise it is the left-to-right fold with the configured default
    operator.  The payload of the fold is wrapped under the parent label and
    [self], with its default operator, is afterwards what it was before. *)
Theorem evaluate_greater_than_2_folds self tree_list (parent_label : string) :
  2 < length tree_list ->
  forallb unit_tree tree_list = true ->
  exists r x,
    (if existsb adjective_labelled tree_list
     then right_to_left_fold (with_default_op self mmult1) tree_list
     else left_to_right_fold self tree_list) = Ok r /\
    getitem0 r = Ok x /\
    __evaluate_greater_than_2 mmult1 tree_list parent_label self
    = (Ok (Tree parent_label [x]), self).
Proof.
  intros Hlen Hunit.
  assert (Hne : tree_list <> [])
    by (destruct tree_list; [cbn in Hlen; lia | congruence]).
  destruct (evaluate_greater_than_2_unit self tree_list parent_label Hlen Hunit)
    as [l [x [_ [E R]]]].
  exists (Tree l [x]), x.
  rewrite <- evaluate_right2left_fold, <- evaluate_left2right_fold
    by assumption.
  repeat split; assumption.
Qed.

(** C7. The label of the running composite: after any number of pairings
    the composite of the left-to-right fold carries the label of the
    leftmost child, and that of the right-to-left fold the label of the
    rightmost child; the next pairing is made with that label on the side of
    the composite and wraps its result under it again.  The label of the
    parent plays no part in the folds. *)
Theorem fold_composite_label self (paired : list (node V)) (next : node V) :
  paired <> [] ->
  forallb unit_tree (paired ++ [next]) = true ->
  (exists l x,
      label (hd NoneV paired) = Ok l /\
      __evaluate_left2right self paired = Ok (Tree l [x]) /\
      __evaluate_left2right self (paired ++ [next])
      = __evaluate_2 self (Tree l [x]) next l) /\
  (exists l x,
      label (last paired NoneV) = Ok l /\
      __evaluate_right2left self paired = Ok (Tree l [x]) /\
      __evaluate_right2left self (next :: paired)
      = __evaluate_2 self next (Tree l [x]) l).
Proof.
  intros Hne H. rewrite forallb_app in H. apply andb_prop in H as [Hp Hn].
  split.
  - destruct (evaluate_left2right_unit self _ Hne Hp) as [l [x [Hl [_ [_ E]]]]].
    exists l, x. repeat split; try assumption.
    destruct paired as [| first rest]; [congruence |].
    cbn [app]. unfold __evaluate_left2right in *.
    rewrite for_each_app, E. cbn [rbind for_each label].
    now destruct (__evaluate_2 self (Tree l [x]) next l).
  - destruct (evaluate_right2left_unit self _ Hne Hp) as [l [x [Hl [_ [_ E]]]]].
    exists l, x. repeat split; try assumption.
    destruct paired as [| first rest]; [congruence |].
    unfold __evaluate_right2left in *.
    change (removelast (next :: first :: rest))
      with (next :: removelast (first :: rest)).
    change (last (next :: first :: rest) NoneV)
      with (last (first :: rest) NoneV).
    cbn [rev]. rewrite for_each_app, E. cbn [rbind for_each label].
    now destruct (__evaluate_2 self next (Tree l [x]) l).
Qed.

(** ** The recursive evaluation *)

Lemma evaluate_Tree (l : string) (cs : list (node V)) self :
  __evaluate mmult1 (Tree l cs) self
  = bind (collect_children (__evaluate mmult1) cs)
      (after_loop mmult1 (Tree l cs)) self.
Proof. reflexivity. Qed.

Lemma collect_children_cons (ev : node V -> M V (node V)) (c : node V)
  (cs : list (node V)) self :
  collect_children ev (c :: cs) self
  = (is_leaf <- lift (fun _ => __tree_is_leaf c);;
     t <- (if is_leaf : bool then ret c else ev c);;
     ts <- collect_children ev cs;;
     ret (t :: ts))%M self.
Proof. reflexivity. Qed.

Ltac split_results :=
  repeat match goal with
    | H : context [match ?x with _ => _ end] |- _ => destruct x eqn:?
    | H : (_, _) = (_, _) |- _ => inversion H; clear H; subst
    end; try discriminate.

(** *** Frame: a method that returns leaves [self] as it found it *)

Lemma evaluate_greater_than_2_frame tree_list (parent_label : string) self
  (r : node V) self' :
  __evaluate_greater_than_2 mmult1 tree_list parent_label self = (Ok r, self') ->
  self' = self.
Proof.
  unfold __evaluate_greater_than_2, bind, lift, set_default_op, ret.
  cbn [data default_op word_vectors]. intros H. split_results.
  - now destruct self.
  - reflexivity.
Qed.

Lemma after_loop_frame (tree : node V) tree_list self (r : node V) self' :
  after_loop mmult1 tree tree_list self = (Ok r, self') -> self' = self.
Proof.
  unfold after_loop.
  destruct tree_list as [| t0 [| t1 [| t2 rest]]];
    try (unfold bind at 1; unfold lift at 1;
         destruct (label tree); [| discriminate];
         apply evaluate_greater_than_2_frame).
  - unfold bind, lift, ret. intros H. split_results. reflexivity.
  - unfold bind, lift, ret. intros H. split_results. reflexivity.
Qed.

Lemma collect_children_frame (ev : node V -> M V (node V))
  (cs : list (node V)) :
  Forall (fun c => forall self r self', ev c self = (Ok r, self') -> self' = self)
    cs ->
  forall self ts self',
    collect_children ev cs self = (Ok ts, self') -> self' = self.
Proof.
  induction 1 as [| c cs Hc _ IH]; intros self ts self' H.
  - cbn in H. unfold ret in H. now inversion H.
  - rewrite collect_children_cons in H. unfold bind at 1, lift at 1 in H.
    destruct (__tree_is_leaf c) as [[|] |]; [| | discriminate].
    + unfold bind at 1, ret at 1 in H. unfold bind at 1 in H.
      destruct (collect_children ev cs self) as [[ts' | e] s1] eqn:E;
        [| discriminate].
      unfold ret in H. inversion H; subst. now apply (IH _ _ _ E).
    + unfold bind at 1 in H.
      destruct (ev c self) as [[t | e] s1] eqn:E1; [| discriminate].
      apply Hc in E1. subst s1. unfold bind at 1 in H.
      destruct (collect_children ev cs self) as [[ts' | e] s2] eqn:E2;
        [| discriminate].
      unfold ret in H. inversion H; subst. now apply (IH _ _ _ E2).
Qed.

Lemma evaluate_frame t :
  forall self (r : node V) self',
    __evaluate mmult1 t self = (Ok r, self') -> self' = self.
Proof.
  induction t as [s | | v | l cs IH] using node_children_ind;
    intros self r self' H.
  - cbn in H. unfold bind at 1, ret at 1 in H.
    destruct (map Str (chars s)) as [| t0 [| t1 [| t2 rest]]];
      unfold bind, lift, ret in H; cbn in H; split_results.
  - cbn in H. discriminate.
  - cbn in H. discriminate.
  - rewrite evaluate_Tree in H. unfold bind in H.
    destruct (collect_children _ cs self) as [[ts | e] s1] eqn:E;
      [| discriminate].
    apply (collect_children_frame _ _ IH) in E. subst s1.
    now apply after_loop_frame in H.
Qed.

(** C10. A call of [evaluate] that returns has replaced [data] and nothing
    else: the default operator and the vector source of [self] are the ones
    it had before the call, however many adjective-triggered folds replaced
    the operator on the way. *)
Theorem evaluate_frame_default_op self self' :
  evaluate mmult1 self = (Ok tt, self') ->
  default_op self' = default_op self /\ word_vectors self' = word_vectors self.
Proof.
  unfold evaluate, bind. intros H.
  destruct (__evaluate mmult1 (data self) self) as [[d | e] s1] eqn:E;
    [| discriminate].
  apply evaluate_frame in E. subst s1.
  unfold set_data in H. inversion H; subst. now split.
Qed.

(** *** Well-formed trees are evaluated to a single node *)

Lemma preterminal_leaf (c : node V) :
  preterminal c = true -> __tree_is_leaf c = Ok true /\ unit_tree c = true.
Proof.
  destruct c as [| | | l [| [s | | v | l' cs'] [| y cs]]]; cbn;
    try discriminate.
  now split.
Qed.

Lemma child_is_Tree (c : node V) :
  preterminal c || well_formed c = true -> is_Tree c = true.
Proof. destruct c; cbn; try discriminate; reflexivity. Qed.

Lemma well_formed_not_leaf (c : node V) :
  well_formed c = true -> __tree_is_leaf c = Ok false.
Proof.
  destruct c as [| | | l cs]; cbn [well_formed]; try discriminate.
  intros H. apply andb_prop in H as [_ H].
  destruct cs as [| x [| y cs]]; cbn [__tree_is_leaf]; try reflexivity.
  cbn [forallb] in H. apply andb_prop in H as [H _].
  now rewrite (child_is_Tree _ H).
Qed.

Lemma collect_children_well_formed (cs : list (node V)) :
  Forall (evaluates_to_single_node mmult1) cs ->
  forallb (fun c => preterminal c || well_formed c) cs = true ->
  forall self, exists ts,
    collect_children (__evaluate mmult1) cs self = (Ok ts, self) /\
    forallb unit_tree ts = true /\ length ts = length cs.
Proof.
  induction 1 as [| c cs Hc _ IH]; intros Hwf self.
  - exists []. now repeat split.
  - cbn [forallb] in Hwf. apply andb_prop in Hwf as [Hchild Hrest].
    destruct (IH Hrest self) as [ts [Ets [Hts Hlen]]].
    rewrite collect_children_cons. unfold bind at 1, lift at 1.
    destruct (preterminal c) eqn:Hp.
    + destruct (preterminal_leaf _ Hp) as [-> Hu].
      exists (c :: ts). unfold bind, ret. rewrite Ets. cbn.
      rewrite Hu, Hts, Hlen. now repeat split.
    + cbn [orb] in Hchild. rewrite (well_formed_not_leaf _ Hchild).
      destruct (Hc Hchild self) as [l [v [_ [Hv Ev]]]].
      exists (Tree l [v] :: ts). unfold bind, ret. rewrite Ev, Ets.
      cbn [forallb length]. rewrite (value_unit_tree l v Hv), Hts, Hlen.
      now repeat split.
Qed.

Lemma after_loop_unit (l : string) (cs : list (node V)) tree_list self :
  tree_list <> [] -> forallb unit_tree tree_list = true ->
  exists v, is_value v = true /\
    after_loop mmult1 (Tree l cs) tree_list self = (Ok (Tree l [v]), self).
Proof.
  intros Hne Hu. unfold after_loop.
  destruct tree_list as [| t0 [| t1 [| t2 rest]]]; [congruence | | |].
  - cbn [forallb] in Hu. rewrite andb_true_r in Hu.
    destruct (unit_tree_inv _ Hu) as [l0 [x [-> Hx]]].
    exists (resolve self x). split; [now apply resolve_value | reflexivity].
  - cbn [forallb] in Hu. rewrite andb_true_r in Hu.
    apply andb_prop in Hu as [H0 H1].
    destruct (evaluate_2_unit self t0 t1 l H0 H1) as [v [Hv E]].
    exists v. split; [assumption |].
    unfold bind, lift. cbn [label]. now rewrite E.
  - destruct (evaluate_greater_than_2_unit self (t0 :: t1 :: t2 :: rest) l)
      as [l' [x [Hx [_ E]]]]; [cbn; lia | assumption |].
    exists x. split; [assumption |].
    unfold bind at 1, lift at 1. cbn [label]. exact E.
Qed.

Lemma evaluate_well_formed t : evaluates_to_single_node mmult1 t.
Proof.
  induction t as [s | | v | l cs IH] using node_children_ind;
    intros Hwf self; try discriminate.
  cbn [well_formed] in Hwf. apply andb_prop in Hwf as [Hne Hcs].
  destruct (collect_children_well_formed cs IH Hcs self)
    as [ts [Ets [Hts Hlen]]].
  assert (Hts_ne : ts <> []).
  { intros ->. cbn in Hlen. rewrite <- Hlen in Hne. discriminate. }
  destruct (after_loop_unit l cs ts self Hts_ne Hts) as [v [Hv E]].
  exists l, v. repeat split; try assumption.
  rewrite evaluate_Tree. unfold bind. now rewrite Ets.
Qed.

(** C5. The tree that [evaluate] leaves in [data] for a well-formed input is
    a single node: it carries the label of the root of the input and exactly
    one payload, a vector or [None].  The branching of the input below the
    root is not kept. *)
Theorem evaluate_single_node self :
  well_formed (data self) = true ->
  exists l v,
    label (data self) = Ok l /\ is_value v = true /\
    evaluate mmult1 self = (Ok tt, with_data self (Tree l [v])).
Proof.
  intros Hwf. destruct (evaluate_well_formed _ Hwf self) as [l [v [Hl [Hv E]]]].
  exists l, v. repeat split; try assumption.
  unfold evaluate, bind. now rewrite E.
Qed.

(** ** Construction *)

(** The loop of [__evaluate] over the children of a well-formed node
    returns, in the state in which it started, the list that holds every
    tagged leaf as it is and the result of the evaluation of every other
    child, in the order of the children. *)
Lemma well_formed_children_collected (cs : list (node V)) self :
  forallb (fun c => preterminal c || well_formed c) cs = true ->
  exists ts,
    Forall2 (collected mmult1 self) cs ts /\
    forallb unit_tree ts = true /\
    collect_children (__evaluate mmult1) cs self = (Ok ts, self).
Proof.
  induction cs as [| c cs IH]; intros Hwf.
  - exists []. repeat split. constructor.
  - cbn [forallb] in Hwf. apply andb_prop in Hwf as [Hchild Hrest].
    destruct (IH Hrest) as [ts [Hcol [Hts Ets]]].
    rewrite collect_children_cons. unfold bind at 1, lift at 1.
    destruct (preterminal c) eqn:Hp.
    + destruct (preterminal_leaf _ Hp) as [Hleaf Hu].
      exists (c :: ts). rewrite Hleaf. unfold bind, ret. rewrite Ets.
      cbn [forallb]. rewrite Hu, Hts. repeat split.
      constructor; [left; now split | assumption].
    + cbn [orb] in Hchild.
      pose proof (well_formed_not_leaf _ Hchild) as Hleaf.
      destruct (evaluate_well_formed c Hchild self) as [l [v [_ [Hv Ev]]]].
      exists (Tree l [v] :: ts). rewrite Hleaf. unfold bind, ret.
      rewrite Ev, Ets. cbn [forallb].
      rewrite (value_unit_tree l v Hv), Hts. repeat split.
      constructor; [right; split; [assumption | now exists self] | assumption].
Qed.

(** The list that the loop builds from given children is unique. *)
Lemma collected_unique (cs ts ts' : list (node V)) self :
  Forall2 (collected mmult1 self) cs ts ->
  Forall2 (collected mmult1 self) cs ts' -> ts' = ts.
Proof.
  intros H. revert ts'. induction H as [| c r cs ts Hc _ IH]; intros ts' H'.
  - now inversion H'.
  - inversion H' as [| c0 r' cs0 ts0 Hc' Hrest]; subst. f_equal.
    + destruct Hc as [[L ->] | [L [s1 E]]], Hc' as [[L' ->] | [L' [s2 E']]];
        try congruence.
    + now apply IH.
Qed.

(** C6. No tree is binarized on its way to the engine.  The tree that the
    constructor stores for a bracketed string is the parse itself; when its
    root has more than two children the stored tree is not binary, and its
    evaluation is the more-than-two-children evaluation of the list made of
    its children in their order, each tagged leaf as it is and each other
    child replaced by the result of its own evaluation; that list is
    determined by the children. *)
Theorem bracketed_tree_reaches_greater_than_2 (s : string)
  (wv : VectorSource V) (op : V -> V -> V) self (l : string)
  (children : list (node V)) :
  __init__ s wv op = Ok self ->
  data self = Tree l children ->
  well_formed (data self) = true ->
  2 < length children ->
  Tree_fromstring s = Ok (Tree l children) /\
  at_most_binary (data self) = false /\
  exists tree_list,
    Forall2 (collected mmult1 self) children tree_list /\
    (forall others,
        Forall2 (collected mmult1 self) children others ->
        others = tree_list) /\
    length tree_list = length children /\
    forallb unit_tree tree_list = true /\
    __evaluate mmult1 (data self) self
    = __evaluate_greater_than_2 mmult1 tree_list l self.
Proof.
  intros Hinit Hdata Hwf Hlen. split; [| split].
  - unfold __init__, pos_string_to_binary_tree in Hinit.
    destruct (Tree_fromstring s) as [d | e]; [| discriminate].
    cbn in Hinit. injection Hinit as <-. cbn in Hdata. now subst d.
  - rewrite Hdata. cbn [at_most_binary].
    assert (Nat.leb (length children) 2 = false) as -> by (apply Nat.leb_gt; lia).
    reflexivity.
  - rewrite Hdata in *. cbn [well_formed] in Hwf.
    apply andb_prop in Hwf as [_ Hcs].
    destruct (well_formed_children_collected children self Hcs)
      as [ts [Hcol [Hts Ets]]].
    pose proof (Forall2_length Hcol) as Hl.
    exists ts. split; [assumption |].
    split; [intros others Ho; now apply (collected_unique children ts others self) |].
    split; [now symmetry |]. split; [assumption |].
    rewrite evaluate_Tree. unfold bind at 1. rewrite Ets.
    unfold after_loop. rewrite Hl in Hlen.
    destruct ts as [| t0 [| t1 [| t2 rest]]]; cbn in Hlen; try lia.
    reflexivity.
Qed.

(** C9. Flat construction with a tag list of the wrong length: for a
    sentence without an opening bracket and a non-empty delimiter, the
    constructor fails on its assertion, with an [AssertionError]. *)
Theorem from_sentence_tag_mismatch (sentence : string) (wv : VectorSource V)
  (delimiter : string) (tags leaves : list string) :
  char_in "("%char sentence = false ->
  str_split sentence delimiter = Ok leaves ->
  length tags <> length leaves ->
  from_sentence mult sentence wv delimiter (Some tags) = Raise AssertionError.
Proof.
  intros Hflat Hsplit Hlen. unfold from_sentence.
  rewrite Hflat, Hsplit. cbn [negb].
  change (__init__ "()" wv mult)
    with (Ok {| data := @Tree V "" []; default_op := mult;
                word_vectors := wv |}).
  cbn [rbind]. apply Nat.eqb_neq in Hlen. now rewrite Hlen.
Qed.

(** ** The binarizer *)

Lemma tree_to_binary_strictly_binary (fuel : nat) t :
  strictly_binary t = true -> height t < fuel ->
  tree_to_binary fuel t = Some (Ok t).
Proof.
  revert t. induction fuel as [| n IH]; intros t Hb Hh; [lia |].
  destruct t as [s | | v | l [| a [| b [| c cs]]]]; cbn in Hb;
    try discriminate; [reflexivity |].
  apply andb_prop in Hb as [Ha Hb]. cbn in Hh.
  cbn [tree_to_binary fold_left].
  rewrite (IH a Ha), (IH b Hb) by lia. reflexivity.
Qed.

Lemma tree_to_binary_reduce (n : nat) (lbl : string) (first second : node V)
  (rest : list (node V)) :
  tree_to_binary (S n) (Tree lbl (first :: second :: rest))
  = fold_left (reduce_step n lbl) (second :: rest) (Some (Ok first)).
Proof. reflexivity. Qed.

Lemma tree_to_binary_fold_output (n : nat) (lbl : string)
  (ys : list (node V)) (acc : option (result (node V))) (r : node V) :
  (forall t t', tree_to_binary n t = Some (Ok t') -> strictly_binary t' = true) ->
  fold_left (reduce_step n lbl) ys acc = Some (Ok r) ->
  (ys = [] /\ acc = Some (Ok r)) \/ strictly_binary r = true.
Proof.
  intros IH. revert acc. induction ys as [| y ys IHys]; intros acc H.
  - left. now split.
  - right. cbn [fold_left] in H. apply IHys in H as [[_ H] | H]; [| assumption].
    unfold reduce_step in H.
    destruct acc as [[x | e] |]; try discriminate.
    destruct (tree_to_binary n x) as [[bx | e] |] eqn:Ex; try discriminate.
    destruct (tree_to_binary n y) as [[by_ | e] |] eqn:Ey; try discriminate.
    injection H as <-. cbn. now rewrite (IH _ _ Ex), (IH _ _ Ey).
Qed.

Lemma tree_to_binary_output (fuel : nat) t (t' : node V) :
  tree_to_binary fuel t = Some (Ok t') -> strictly_binary t' = true.
Proof.
  revert t t'. induction fuel as [| n IH]; intros t t' H; [discriminate |].
  destruct t as [s | | v | l [| a [| b cs]]];
    try rewrite tree_to_binary_reduce in H; cbn [tree_to_binary] in H;
    try discriminate.
  - now injection H as <-.
  - now apply IH in H.
  - apply (tree_to_binary_fold_output n l _ _ _ IH) in H as [[Hnil _] | H];
      [discriminate | assumption].
Qed.

(** *** The binarizer returns, given fuel for the size of the tree *)

Lemma size_positive t : 1 <= size t.
Proof. destruct t; cbn; lia. Qed.

Lemma tree_to_binary_fold_total (n : nat) (lbl : string)
  (ys : list (node V)) :
  (forall t, binarized_within n t) ->
  forallb token_tree ys = true ->
  forall (acc : node V) (m : nat),
    strictly_binary acc = true -> height acc < m ->
    m + fold_right (fun c k => size c + k) 0 ys <= n ->
    exists r,
      fold_left (reduce_step n lbl) ys (Some (Ok acc)) = Some (Ok r) /\
      strictly_binary r = true /\
      height r < m + fold_right (fun c k => size c + k) 0 ys.
Proof.
  intros IH. induction ys as [| y ys IHys]; intros Hys acc m Hacc Hm Hn.
  - exists acc. cbn. repeat split; [assumption | lia].
  - cbn [forallb] in Hys. apply andb_prop in Hys as [Hy Hys].
    cbn [fold_right] in Hn |- *.
    destruct (IH y Hy) as [by_ [Ey [Hby Hhy]]]; [lia |].
    cbn [fold_left]. unfold reduce_step at 2.
    rewrite (tree_to_binary_strictly_binary n acc Hacc) by lia. rewrite Ey.
    destruct (IHys Hys (Tree lbl [acc; by_]) (m + size y)) as [r [Er [Hr Hh]]].
    + cbn. now rewrite Hacc, Hby.
    + cbn. lia.
    + lia.
    + exists r. repeat split; [assumption | assumption | lia].
Qed.

Lemma tree_to_binary_total (fuel : nat) t : binarized_within fuel t.
Proof.
  revert t. induction fuel as [| n IH]; intros t Ht Hsize.
  - pose proof (size_positive t). lia.
  - destruct t as [s | | v | l [| a [| b cs]]]; cbn in Ht; try discriminate.
    + exists (Str s). cbn. repeat split. lia.
    + rewrite andb_true_r in Ht. cbn in Hsize.
      destruct (IH a Ht) as [t' [E [Hb Hh]]]; [lia |].
      exists t'. cbn [tree_to_binary]. repeat split; try assumption.
      cbn. lia.
    + apply andb_prop in Ht as [Ha Ht]. apply andb_prop in Ht as [Hb Hcs].
      cbn [size fold_right] in Hsize.
      destruct (IH a Ha) as [ba [Ea [Hba Hha]]]; [lia |].
      destruct (IH b Hb) as [bb [Eb [Hbb Hhb]]]; [lia |].
      rewrite tree_to_binary_reduce. cbn [fold_left].
      unfold reduce_step at 2. rewrite Ea, Eb.
      destruct (tree_to_binary_fold_total n l cs IH Hcs (Tree l [ba; bb])
                  (size a + size b)) as [r [Er [Hr Hh]]].
      * cbn. now rewrite Hba, Hbb.
      * cbn. lia.
      * lia.
      * exists r. repeat split; try assumption. cbn [size fold_right]. lia.
Qed.

(** C8. The binarizer returns a tree in which every node has exactly two
    children unchanged, for any fuel above the height of the tree.  On a
    tree of tokens it returns, given fuel for the size of the tree, and a
    second application returns the result of the first: the result is a tree
    in which every node has exactly two children. *)
Theorem tree_to_binary_idempotent (fuel : nat) t :
  (strictly_binary t = true -> height t < fuel ->
   tree_to_binary fuel t = Some (Ok t)) /\
  (token_tree t = true -> size t <= fuel ->
   exists t',
     tree_to_binary fuel t = Some (Ok t') /\
     strictly_binary t' = true /\
     forall fuel', height t' < fuel' ->
                   tree_to_binary fuel' t' = Some (Ok t')).
Proof.
  split.
  - apply tree_to_binary_strictly_binary.
  - intros Ht Hsize.
    destruct (tree_to_binary_total fuel t Ht Hsize) as [t' [E [Hb _]]].
    exists t'. repeat split; try assumption.
    intros fuel' Hh. now apply tree_to_binary_strictly_binary.
Qed.

End Properties.

(** * Further properties of the code *)

Section Engine.

Context {V : Type}.
Variable mult : V -> V -> V.
Variable mmult1 : V -> V -> V.

Implicit Types (self : ParseTree V) (t : node V) (tree_list : list (node V)).

(** ** Label classes *)

Lemma lower_ascii_idem (c : ascii) : lower_ascii (lower_ascii c) = lower_ascii c.
Proof. destruct c as [[] [] [] [] [] [] [] []]; reflexivity. Qed.

Lemma is_verb_lower (l : string) : __is_verb l = __is_verb (lower l).
Proof.
  destruct l as [| c l]; [reflexivity |]. cbn [lower __is_verb].
  now rewrite lower_ascii_idem.
Qed.

Lemma lower_idem (l : string) : lower (lower l) = lower l.
Proof.
  induction l as [| c l IH]; [reflexivity |]. cbn.
  now rewrite lower_ascii_idem, IH.
Qed.

Lemma is_noun_lower (l : string) : __is_noun l = __is_noun (lower l).
Proof.
  destruct l as [| c l]; [reflexivity |].
  unfold __is_noun. rewrite lower_idem. reflexivity.
Qed.

(** X16. The tests for verbs, nouns and adjectives do not depend on the case of
    the label, and no label passes two of them. *)
Theorem label_classes_disjoint (l l' : string) :
  (lower l = lower l' ->
   __is_verb l = __is_verb l' /\ __is_noun l = __is_noun l') /\
  __is_verb l && __is_noun l = false /\
  __is_verb l && __is_adjective l = false /\
  __is_noun l && __is_adjective l = false.
Proof.
  split.
  - intros H. rewrite (is_verb_lower l), (is_verb_lower l'),
      (is_noun_lower l), (is_noun_lower l'), H. now split.
  - rewrite is_adjective_lower. destruct l as [| c l]; [now repeat split |].
    unfold __is_verb, __is_noun, str_in, adjective_labels.
    cbn [lower String.eqb existsb].
    destruct c as [[] [] [] [] [] [] [] []];
      match goal with
      | |- context [lower_ascii ?a] =>
          let x := eval vm_compute in (lower_ascii a) in
          change (lower_ascii a) with x
      end; cbn; repeat split; try reflexivity;
      now destruct (String.eqb (lower l) _).
Qed.

(** ** What the evaluation returns *)

Lemma leaf_is_list_item (c : node V) :
  __tree_is_leaf c = Ok true -> list_item c = true.
Proof.
  unfold list_item.
  destruct c as [s | | v | l [| x [| y cs]]]; cbn; try discriminate;
    try reflexivity.
  intros H. injection H as H. now rewrite H.
Qed.

Lemma list_item_Tree t :
  list_item t = true -> is_Tree t = true -> unit_tree t = true.
Proof.
  unfold list_item. intros H HT. rewrite HT in H. cbn in H.
  now rewrite orb_false_r in H.
Qed.

Lemma label_Ok_Tree t (l : string) : label t = Ok l -> is_Tree t = true.
Proof. destruct t; cbn; try discriminate; reflexivity. Qed.

Lemma evaluate_2_Ok_Trees self (t1 t2 : node V) (l : string) (r : node V) :
  __evaluate_2 self t1 t2 l = Ok r -> is_Tree t1 = true /\ is_Tree t2 = true.
Proof.
  unfold __evaluate_2. destruct t1; cbn [label rbind]; try discriminate.
  destruct t2; cbn [label rbind]; try discriminate. now split.
Qed.

Lemma for_each_left_Ok_Trees self (rest : list (node V)) (first r : node V) :
  for_each (fun current tree => pair_left self current tree) rest first = Ok r ->
  forallb is_Tree rest = true /\ (rest <> [] -> is_Tree first = true).
Proof.
  revert first. induction rest as [| t rest IH]; intros first H.
  - split; [reflexivity | congruence].
  - cbn [for_each] in H.
    destruct (pair_left self first t) as [s' | e] eqn:E; [| discriminate].
    unfold pair_left in E. destruct (label first) as [l | e] eqn:El;
      [| discriminate]. cbn [rbind] in E.
    apply evaluate_2_Ok_Trees in E as [H1 H2].
    destruct (IH _ H) as [Hr _]. cbn [forallb]. rewrite H2, Hr.
    split; [reflexivity | intros _; assumption].
Qed.

Lemma for_each_right_Ok_Trees self (before : list (node V))
  (final r : node V) :
  for_each (fun current tree => pair_right self tree current) before final
  = Ok r ->
  forallb is_Tree before = true /\ (before <> [] -> is_Tree final = true).
Proof.
  revert final. induction before as [| t before IH]; intros final H.
  - split; [reflexivity | congruence].
  - cbn [for_each] in H.
    destruct (pair_right self t final) as [s' | e] eqn:E; [| discriminate].
    unfold pair_right in E. destruct (label final) as [l | e] eqn:El;
      [| discriminate]. cbn [rbind] in E.
    apply evaluate_2_Ok_Trees in E as [H1 H2].
    destruct (IH _ H) as [Hr _]. cbn [forallb]. rewrite H1, Hr.
    split; [reflexivity | intros _; assumption].
Qed.

Lemma evaluate_left2right_Ok_Trees self tree_list (r : node V) :
  1 < length tree_list ->
  __evaluate_left2right self tree_list = Ok r ->
  forallb is_Tree tree_list = true.
Proof.
  destruct tree_list as [| first [| second rest]]; cbn [length]; try lia.
  intros _ H. unfold __evaluate_left2right in H.
  apply for_each_left_Ok_Trees in H as [Hr Hf].
  cbn [forallb] in *. rewrite Hr, Hf by congruence. reflexivity.
Qed.

Lemma evaluate_right2left_Ok_Trees self tree_list (r : node V) :
  1 < length tree_list ->
  __evaluate_right2left self tree_list = Ok r ->
  forallb is_Tree tree_list = true.
Proof.
  intros Hlen H.
  assert (Hne : tree_list <> [])
    by (destruct tree_list; [cbn in Hlen; lia | congruence]).
  destruct (exists_last Hne) as [before [final ->]].
  unfold __evaluate_right2left in H.
  destruct (before ++ [final]) as [| x xs] eqn:Eq;
    [now destruct before |]. rewrite <- Eq in *. clear Eq x xs.
  rewrite removelast_last, last_last in H.
  apply for_each_right_Ok_Trees in H as [Hr Hf].
  rewrite forallb_rev in Hr. rewrite forallb_app, Hr. cbn [forallb].
  rewrite Hf; [reflexivity |].
  intros Hnil. apply (f_equal (@length _)) in Hnil.
  rewrite length_rev in Hnil. rewrite length_app in Hlen.
  cbn in Hlen, Hnil. lia.
Qed.

Lemma evaluate_greater_than_2_Ok_Trees tree_list (l : string) self
  (r : node V) self' :
  __evaluate_greater_than_2 mmult1 tree_list l self = (Ok r, self') ->
  2 < length tree_list /\ forallb is_Tree tree_list = true.
Proof.
  unfold __evaluate_greater_than_2.
  destruct (Nat.ltb 2 (length tree_list)) eqn:Hlen; cbn [negb];
    [| unfold lift; discriminate].
  apply Nat.ltb_lt in Hlen. intros H. split; [assumption |].
  unfold bind at 1, lift at 1 in H.
  destruct (__contains_adjective tree_list) as [[|] | e]; [| | discriminate].
  - unfold bind at 1, lift at 1 in H. unfold bind at 1 in H.
    unfold set_default_op at 1 in H. unfold bind at 1, lift at 1 in H.
    destruct (__evaluate_right2left _ tree_list) as [ev | e] eqn:E;
      [| discriminate].
    apply evaluate_right2left_Ok_Trees in E; [assumption | lia].
  - unfold bind at 1, lift at 1 in H.
    destruct (__evaluate_left2right self tree_list) as [ev | e] eqn:E;
      [| discriminate].
    apply evaluate_left2right_Ok_Trees in E; [assumption | lia].
Qed.

Lemma list_items_Trees_unit tree_list :
  forallb list_item tree_list = true -> forallb is_Tree tree_list = true ->
  forallb unit_tree tree_list = true.
Proof.
  induction tree_list as [| t ts IH]; [reflexivity |]. cbn [forallb].
  intros H1 H2. apply andb_prop in H1 as [Ha Hb].
  apply andb_prop in H2 as [Hc Hd].
  now rewrite (list_item_Tree _ Ha Hc), IH.
Qed.

Lemma after_loop_Ok (l : string) (cs : list (node V)) tree_list self
  (r : node V) self' :
  forallb list_item tree_list = true ->
  after_loop mmult1 (Tree l cs) tree_list self = (Ok r, self') ->
  exists v, is_value v = true /\ r = Tree l [v].
Proof.
  intros Hitems H.
  assert (Hunit : forallb is_Tree tree_list = true ->
                  tree_list <> [] ->
                  exists v, is_value v = true /\ r = Tree l [v]).
  { intros HT Hne.
    destruct (after_loop_unit mmult1 l cs tree_list self Hne
                (list_items_Trees_unit _ Hitems HT)) as [v [Hv E]].
    rewrite E in H. injection H as <- _. now exists v. }
  destruct tree_list as [| t0 [| t1 [| t2 rest]]].
  - unfold after_loop, bind, lift in H. cbn in H. discriminate.
  - destruct (is_Tree t0) eqn:HT.
    + apply Hunit; [cbn; now rewrite HT | congruence].
    + unfold after_loop, bind, lift, ret in H. cbn [label] in H.
      destruct (getitem0 t0) as [x | e] eqn:Ex; [| discriminate].
      injection H as <- _. exists (resolve self x). split; [| reflexivity].
      apply resolve_value.
      destruct t0 as [[| c s] | | v |]; cbn in Ex; try discriminate.
      now injection Ex as <-.
  - unfold after_loop, bind, lift in H. cbn [label] in H.
    destruct (__evaluate_2 self t0 t1 l) as [r' | e] eqn:E; [| discriminate].
    apply evaluate_2_Ok_Trees in E as [H0 H1].
    apply Hunit; [cbn; now rewrite H0, H1 | congruence].
  - unfold after_loop in H. unfold bind at 1, lift at 1 in H.
    cbn [label] in H.
    apply evaluate_greater_than_2_Ok_Trees in H as [_ HT].
    apply Hunit; [assumption | congruence].
Qed.

Lemma collect_children_items (cs : list (node V)) :
  Forall (returns_labelled_value mmult1) cs ->
  forall self ts self',
    collect_children (__evaluate mmult1) cs self = (Ok ts, self') ->
    forallb list_item ts = true /\ length ts = length cs.
Proof.
  induction 1 as [| c cs Hc _ IH]; intros self ts self' H.
  - cbn in H. unfold ret in H. injection H as <- _. now split.
  - rewrite collect_children_cons in H. unfold bind at 1, lift at 1 in H.
    destruct (__tree_is_leaf c) as [[|] |] eqn:Hleaf; [| | discriminate].
    + unfold bind at 1, ret at 1 in H. unfold bind at 1 in H.
      destruct (collect_children _ cs self) as [[ts' | e] s1] eqn:E;
        [| discriminate].
      unfold ret in H. injection H as <- _.
      destruct (IH _ _ _ E) as [Hi Hl]. cbn [forallb length].
      now rewrite (leaf_is_list_item _ Hleaf), Hi, Hl.
    + unfold bind at 1 in H.
      destruct (__evaluate mmult1 c self) as [[t | e] s1] eqn:E1;
        [| discriminate].
      destruct (Hc _ _ _ E1) as [l [cs' [v [_ [-> Hv]]]]].
      unfold bind at 1 in H.
      destruct (collect_children _ cs s1) as [[ts' | e] s2] eqn:E2;
        [| discriminate].
      unfold ret in H. injection H as <- _.
      destruct (IH _ _ _ E2) as [Hi Hl]. cbn [forallb length].
      unfold list_item at 1. rewrite (value_unit_tree l v Hv), Hi, Hl.
      now split.
Qed.

Lemma evaluate_returns_labelled_value t : returns_labelled_value mmult1 t.
Proof.
  induction t as [s | | v | l cs IH] using node_children_ind;
    intros self r self' H.
  - cbn in H. unfold bind at 1, ret at 1 in H.
    destruct (map Str (chars s)) as [| t0 [| t1 [| t2 rest]]];
      unfold bind, lift, ret in H; cbn in H;
      repeat match goal with
        | H : context [match ?x with _ => _ end] |- _ => destruct x eqn:?
        end; discriminate.
  - cbn in H. discriminate.
  - cbn in H. discriminate.
  - rewrite evaluate_Tree in H. unfold bind in H.
    destruct (collect_children _ cs self) as [[ts | e] s1] eqn:E;
      [| discriminate].
    destruct (collect_children_items cs IH _ _ _ E) as [Hi _].
    destruct (after_loop_Ok l cs ts s1 r self' Hi H) as [v [Hv ->]].
    now exists l, cs, v.
Qed.

(** X1. Whenever [evaluate] returns, the tree it leaves in [data] is one node
    under the label of the root of the input with one payload, a vector or
    [None]; an input that is not a tree never makes it return. *)
Theorem evaluate_leaves_labelled_value self self' :
  evaluate mmult1 self = (Ok tt, self') ->
  exists l cs v,
    data self = Tree l cs /\ is_value v = true /\
    self' = with_data self (Tree l [v]).
Proof.
  unfold evaluate, bind. intros H.
  destruct (__evaluate mmult1 (data self) self) as [[d | e] s1] eqn:E;
    [| discriminate].
  pose proof (evaluate_frame mmult1 _ _ _ _ E) as ->.
  destruct (evaluate_returns_labelled_value _ _ _ _ E)
    as [l [cs [v [Hd [-> Hv]]]]].
  unfold set_data in H. injection H as <-. now exists l, cs, v.
Qed.

(** X3. A tree can be evaluated once: a second [evaluate], on the tree that
    the first one left, raises [TypeError] and changes nothing ([None] has no
    length, and a vector of dimension two or more is not a leaf and cannot be
    iterated as a tree). *)
Theorem evaluate_twice_raises self self' :
  evaluate mmult1 self = (Ok tt, self') ->
  evaluate mmult1 self' = (Raise TypeError, self').
Proof.
  unfold evaluate at 1. unfold bind. intros H.
  destruct (__evaluate mmult1 (data self) self) as [[d | e] s1] eqn:E;
    [| discriminate].
  pose proof (evaluate_frame mmult1 _ _ _ _ E) as ->.
  destruct (evaluate_returns_labelled_value _ _ _ _ E)
    as [l [cs [v [_ [-> Hv]]]]].
  unfold set_data in H. injection H as <-.
  unfold evaluate, bind. cbn [data].
  destruct v; try discriminate; reflexivity.
Qed.

(** ** What a raised exception leaves behind *)

Lemma self_or_projection_pair {A : Type} self (res : result A) self' :
  self_or_projection mmult1 self (res, self') <->
  (self' = self \/
   (exists e, res = Raise e) /\ self' = with_default_op self mmult1).
Proof. reflexivity. Qed.

Ltac outcome_cases H :=
  repeat match type of H with
    | context [match ?x with _ => _ end] => destruct x eqn:?
    end;
  inversion H; clear H; subst;
  first [ left; reflexivity
        | left; match goal with s : ParseTree _ |- _ => now destruct s end
        | right; split; [eexists; reflexivity | reflexivity] ].

Lemma evaluate_greater_than_2_outcome tree_list (l : string) self :
  self_or_projection mmult1 self
    (__evaluate_greater_than_2 mmult1 tree_list l self).
Proof.
  destruct (__evaluate_greater_than_2 mmult1 tree_list l self)
    as [res s'] eqn:H.
  apply self_or_projection_pair.
  unfold __evaluate_greater_than_2, bind, lift, set_default_op, ret in H.
  cbn [data default_op word_vectors] in H.
  fold (with_default_op self mmult1) in H.
  outcome_cases H.
Qed.

Lemma after_loop_outcome (tree : node V) tree_list self :
  self_or_projection mmult1 self (after_loop mmult1 tree tree_list self).
Proof.
  unfold after_loop.
  destruct tree_list as [| t0 [| t1 [| t2 rest]]];
    try (unfold bind at 1, lift at 1;
         destruct (label tree); [| left; reflexivity];
         apply evaluate_greater_than_2_outcome).
  - left. unfold bind, lift, ret.
    destruct (getitem0 t0); [destruct (label tree) |]; reflexivity.
  - left. unfold bind, lift.
    destruct (label tree); reflexivity.
Qed.

Ltac outcome_norm :=
  unfold self_or_projection in *; cbn beta iota in *; cbn [fst snd] in *.

Lemma collect_children_outcome (cs : list (node V)) :
  Forall (fun c => forall self,
              self_or_projection mmult1 self (__evaluate mmult1 c self)) cs ->
  forall self,
    self_or_projection mmult1 self
      (collect_children (__evaluate mmult1) cs self).
Proof.
  induction 1 as [| c cs Hc _ IH]; intros self.
  - left. reflexivity.
  - assert (G : forall t, self_or_projection mmult1 self
                    ((ts <- collect_children (__evaluate mmult1) cs;;
                      ret (t :: ts))%M self)).
    { intros t. unfold bind, ret. specialize (IH self).
      destruct (collect_children _ cs self) as [[ts | e] s1]; outcome_norm.
      - destruct IH as [-> | [[e He] _]]; [now left | discriminate].
      - exact IH. }
    rewrite collect_children_cons. unfold bind at 1, lift at 1.
    destruct (__tree_is_leaf c) as [[|] | e]; [| | left; reflexivity].
    + unfold bind at 1, ret at 1. apply G.
    + unfold bind at 1. specialize (Hc self).
      destruct (__evaluate mmult1 c self) as [[t | e] s1].
      * assert (s1 = self) as ->
            by (outcome_norm; destruct Hc as [-> | [[e He] _]];
                [reflexivity | discriminate]).
        apply G.
      * outcome_norm. destruct Hc as [-> | [_ ->]]; [now left |].
        right. split; [eexists; reflexivity | reflexivity].
Qed.

Lemma evaluate_outcome t :
  forall self, self_or_projection mmult1 self (__evaluate mmult1 t self).
Proof.
  induction t as [s | | v | l cs IH] using node_children_ind; intros self.
  - cbn [__evaluate]. unfold bind at 1, ret at 1.
    apply (after_loop_outcome (Str s)).
  - left. reflexivity.
  - left. reflexivity.
  - rewrite evaluate_Tree. unfold bind.
    pose proof (collect_children_outcome cs IH self) as Hc.
    destruct (collect_children _ cs self) as [[ts | e] s1].
    + assert (s1 = self) as ->
          by (outcome_norm; destruct Hc as [-> | [[e He] _]];
              [reflexivity | discriminate]).
      apply after_loop_outcome.
    + outcome_norm. destruct Hc as [-> | [_ ->]]; [now left |].
      right. split; [eexists; reflexivity | reflexivity].
Qed.

(** X2. When [evaluate] raises, the tree in [data] and the vector source are
    untouched, and the default operator is either untouched or the
    projection operator that an interrupted fold has left in its place. *)
Theorem evaluate_raise_keeps_data self (e : exn) self' :
  evaluate mmult1 self = (Raise e, self') ->
  self' = self \/ self' = with_default_op self mmult1.
Proof.
  unfold evaluate, bind. intros H.
  pose proof (evaluate_outcome (data self) self) as Ho.
  destruct (__evaluate mmult1 (data self) self) as [[d | e'] s1];
    [unfold set_data in H; discriminate |].
  injection H as _ <-. outcome_norm.
  destruct Ho as [-> | [_ ->]]; [now left | now right].
Qed.

(** ** Trees with at most two children *)

Lemma collect_children_step (ev : node V -> M V (node V)) (c : node V)
  (cs : list (node V)) self :
  collect_children ev (c :: cs) self
  = match __tree_is_leaf c with
    | Raise e => (Raise e, self)
    | Ok is_leaf =>
        match (if is_leaf : bool then (Ok c, self) else ev c self) with
        | (Ok t, s1) =>
            match collect_children ev cs s1 with
            | (Ok ts, s2) => (Ok (t :: ts), s2)
            | (Raise e, s2) => (Raise e, s2)
            end
        | (Raise e, s1) => (Raise e, s1)
        end
    end.
Proof.
  rewrite collect_children_cons. unfold bind at 1, lift at 1.
  destruct (__tree_is_leaf c) as [[|] | e]; [| | reflexivity];
    unfold bind at 1; unfold ret at 1.
  - unfold bind, ret. now destruct (collect_children ev cs self) as [[|] ?].
  - destruct (ev c self) as [[t | e] s1]; [| reflexivity].
    unfold bind, ret. now destruct (collect_children ev cs s1) as [[|] ?].
Qed.

Lemma collect_children_ext (ev1 ev2 : node V -> M V (node V))
  (cs : list (node V)) :
  Forall (fun c => forall self, ev1 c self = ev2 c self) cs ->
  forall self, collect_children ev1 cs self = collect_children ev2 cs self.
Proof.
  induction 1 as [| c cs Hc _ IH]; intros self; [reflexivity |].
  rewrite !collect_children_step.
  destruct (__tree_is_leaf c) as [[|] | e]; [| | reflexivity].
  - now rewrite IH.
  - rewrite Hc. destruct (ev2 c self) as [[t | e] s1]; [| reflexivity].
    now rewrite IH.
Qed.

Lemma collect_children_length (ev : node V -> M V (node V))
  (cs : list (node V)) :
  forall self ts self',
    collect_children ev cs self = (Ok ts, self') -> length ts = length cs.
Proof.
  induction cs as [| c cs IH]; intros self ts self' H.
  - cbn in H. unfold ret in H. now injection H as <- _.
  - rewrite collect_children_step in H.
    destruct (__tree_is_leaf c) as [[|] | e]; [| | discriminate].
    + destruct (collect_children ev cs self) as [[ts' | e] s1] eqn:E;
        [| discriminate].
      injection H as <- _. cbn. now rewrite (IH _ _ _ E).
    + destruct (ev c self) as [[t | e] s1]; [| discriminate].
      destruct (collect_children ev cs s1) as [[ts' | e] s2] eqn:E;
        [| discriminate].
      injection H as <- _. cbn. now rewrite (IH _ _ _ E).
Qed.

Lemma evaluate_Str_raises (m : V -> V -> V) (s : string) self :
  __evaluate m (Str s) self = (Raise AttributeError, self).
Proof. destruct s as [| c1 [| c2 [| c3 s]]]; reflexivity. Qed.

(** X4. On a tree in which no node has more than two children the projection
    operator plays no part: the evaluation, exceptions and final state
    included, is the same whatever that operator is. *)
Theorem binary_tree_ignores_projection (m1 m2 : V -> V -> V) t self :
  at_most_binary t = true ->
  __evaluate m1 t self = __evaluate m2 t self.
Proof.
  revert self.
  induction t as [s | | v | l cs IH] using node_children_ind;
    intros self Hb; try reflexivity.
  cbn [at_most_binary] in Hb. apply andb_prop in Hb as [Hlen Hcs].
  apply Nat.leb_le in Hlen. rewrite !evaluate_Tree. unfold bind.
  assert (Hext : Forall (fun c => forall self,
                            __evaluate m1 c self = __evaluate m2 c self) cs).
  { rewrite forallb_forall in Hcs. rewrite Forall_forall in *.
    intros c Hc self0. apply IH; [assumption | now apply Hcs]. }
  rewrite (collect_children_ext _ _ cs Hext).
  destruct (collect_children _ cs self) as [[ts | e] s1] eqn:E;
    [| reflexivity].
  apply collect_children_length in E. rewrite <- E in Hlen.
  destruct ts as [| t0 [| t1 [| t2 rest]]]; cbn in Hlen; try lia;
    reflexivity.
Qed.

(** ** Absent operands *)

Lemma is_None_eq (x : node V) : is_None x = true -> x = NoneV.
Proof. destruct x; cbn; try discriminate; reflexivity. Qed.

Lemma absent_unit_inv self t :
  absent_unit self t = true ->
  exists l x, t = Tree l [x] /\ resolve self x = NoneV /\ is_Tree x = false.
Proof.
  destruct t as [| | | l [| x [| y cs]]]; cbn; try discriminate.
  intros H. exists l, x. apply is_None_eq in H.
  repeat split; try assumption.
  destruct x; cbn in *; try reflexivity; discriminate.
Qed.

Lemma absent_unit_unit self tree_list :
  forallb (absent_unit self) tree_list = true ->
  forallb unit_tree tree_list = true.
Proof.
  induction tree_list as [| t ts IH]; [reflexivity |]. cbn [forallb].
  intros H. apply andb_prop in H as [Ht Hts].
  destruct (absent_unit_inv _ _ Ht) as [l [x [-> [_ Hx]]]].
  cbn [unit_tree]. now rewrite Hx, IH.
Qed.

Lemma evaluate_2_absent_units self (t1 t2 : node V) (l : string) :
  absent_unit self t1 = true -> absent_unit self t2 = true ->
  __evaluate_2 self t1 t2 l = Ok (Tree l [NoneV]).
Proof.
  intros H1 H2.
  destruct (absent_unit_inv _ _ H1) as [l1 [x1 [-> [R1 _]]]].
  destruct (absent_unit_inv _ _ H2) as [l2 [x2 [-> [R2 _]]]].
  unfold __evaluate_2. cbn [label getitem0 rbind]. now rewrite R1, R2.
Qed.

Lemma for_each_left_absent self (rest : list (node V)) (first : node V) :
  absent_unit self first = true ->
  forallb (absent_unit self) rest = true ->
  exists r,
    for_each (fun current tree => pair_left self current tree) rest first = Ok r
    /\ absent_unit self r = true.
Proof.
  revert first. induction rest as [| t rest IH]; intros first Hf Hr.
  - now exists first.
  - cbn [forallb] in Hr. apply andb_prop in Hr as [Ht Hr]. cbn [for_each].
    unfold pair_left at 1.
    destruct (absent_unit_inv _ _ Hf) as [l [x [-> _]]]. cbn [label rbind].
    rewrite (evaluate_2_absent_units self _ t l Hf Ht).
    apply IH; [reflexivity | assumption].
Qed.

Lemma for_each_right_absent self (before : list (node V)) (final : node V) :
  absent_unit self final = true ->
  forallb (absent_unit self) before = true ->
  exists r,
    for_each (fun current tree => pair_right self tree current) before final
    = Ok r /\ absent_unit self r = true.
Proof.
  revert final. induction before as [| t before IH]; intros final Hf Hr.
  - now exists final.
  - cbn [forallb] in Hr. apply andb_prop in Hr as [Ht Hr]. cbn [for_each].
    unfold pair_right at 1.
    destruct (absent_unit_inv _ _ Hf) as [l [x [-> _]]]. cbn [label rbind].
    rewrite (evaluate_2_absent_units self t _ l Ht Hf).
    apply IH; [reflexivity | assumption].
Qed.

Lemma evaluate_greater_than_2_absent self tree_list (l : string) :
  2 < length tree_list ->
  forallb (absent_unit self) tree_list = true ->
  __evaluate_greater_than_2 mmult1 tree_list l self
  = (Ok (Tree l [NoneV]), self).
Proof.
  intros Hlen Habs.
  assert (Hne : tree_list <> [])
    by (destruct tree_list; [cbn in Hlen; lia | congruence]).
  destruct (evaluate_greater_than_2_unit mmult1 self tree_list l Hlen
              (absent_unit_unit _ _ Habs)) as [l' [x [Hx [E ->]]]].
  enough (x = NoneV) as -> by reflexivity.
  assert (Hr : exists r,
             (if existsb adjective_labelled tree_list
              then __evaluate_right2left (with_default_op self mmult1) tree_list
              else __evaluate_left2right self tree_list) = Ok r /\
             absent_unit self r = true).
  { destruct (existsb adjective_labelled tree_list).
    - destruct (forallb_removelast_last _ _ NoneV Hne Habs) as [Hb Hf].
      rewrite <- forallb_rev in Hb.
      destruct (for_each_right_absent (with_default_op self mmult1) _ _ Hf Hb)
        as [r [Er Hr]].
      exists r. split; [| exact Hr]. unfold __evaluate_right2left.
      destruct tree_list; [congruence | exact Er].
    - destruct tree_list as [| first rest]; [congruence |].
      cbn [forallb] in Habs. apply andb_prop in Habs as [Hf Hr].
      destruct (for_each_left_absent self rest first Hf Hr) as [r [Er Hr']].
      exists r. split; [exact Er | exact Hr']. }
  destruct Hr as [r [Er Hr]]. rewrite E in Er. injection Er as <-.
  cbn [absent_unit] in Hr. apply is_None_eq in Hr.
  destruct x; cbn in Hx, Hr; try discriminate. reflexivity.
Qed.

Lemma after_loop_absent (l : string) (cs : list (node V)) tree_list self :
  tree_list <> [] -> forallb (absent_unit self) tree_list = true ->
  after_loop mmult1 (Tree l cs) tree_list self = (Ok (Tree l [NoneV]), self).
Proof.
  intros Hne Habs. unfold after_loop.
  destruct tree_list as [| t0 [| t1 [| t2 rest]]]; [congruence | | |].
  - cbn [forallb] in Habs. rewrite andb_true_r in Habs.
    destruct (absent_unit_inv _ _ Habs) as [l0 [x [-> [R _]]]].
    unfold bind, lift, ret. cbn [getitem0 label]. now rewrite R.
  - cbn [forallb] in Habs. rewrite andb_true_r in Habs.
    apply andb_prop in Habs as [H0 H1].
    unfold bind, lift. cbn [label].
    now rewrite (evaluate_2_absent_units self t0 t1 l H0 H1).
  - unfold bind at 1, lift at 1. cbn [label].
    apply evaluate_greater_than_2_absent; [cbn; lia | assumption].
Qed.

Lemma collect_children_absent (cs : list (node V)) self :
  Forall (fun c => well_formed c = true ->
                   Forall (fun s => safe_lookup (word_vectors self) s = None)
                     (tokens c) ->
                   exists l, __evaluate mmult1 c self
                             = (Ok (Tree l [NoneV]), self)) cs ->
  forallb (fun c => preterminal c || well_formed c) cs = true ->
  Forall (fun s => safe_lookup (word_vectors self) s = None)
    (flat_map tokens cs) ->
  exists ts,
    collect_children (__evaluate mmult1) cs self = (Ok ts, self) /\
    forallb (absent_unit self) ts = true /\ length ts = length cs.
Proof.
  induction 1 as [| c cs Hc _ IH]; intros Hwf Htok.
  - exists []. now repeat split.
  - cbn [forallb] in Hwf. apply andb_prop in Hwf as [Hchild Hrest].
    cbn [flat_map] in Htok. apply Forall_app in Htok as [Htc Htcs].
    destruct (IH Hrest Htcs) as [ts [Ets [Hts Hlen]]].
    rewrite collect_children_step.
    destruct (preterminal c) eqn:Hp.
    + destruct (preterminal_leaf _ Hp) as [-> _]. rewrite Ets.
      exists (c :: ts). cbn [forallb length]. rewrite Hts, Hlen.
      repeat split. rewrite andb_true_r.
      destruct c as [| | | l [| [s | | v | l' cs'] [| y ys]]];
        try discriminate.
      cbn in Htc. apply Forall_inv in Htc. cbn. now rewrite Htc.
    + cbn [orb] in Hchild. rewrite (well_formed_not_leaf _ Hchild).
      destruct (Hc Hchild Htc) as [l Ev]. rewrite Ev, Ets.
      exists (Tree l [NoneV] :: ts). cbn [forallb length].
      rewrite Hts, Hlen. now repeat split.
Qed.

Lemma evaluate_absent t self :
  well_formed t = true ->
  Forall (fun s => safe_lookup (word_vectors self) s = None) (tokens t) ->
  exists l, __evaluate mmult1 t self = (Ok (Tree l [NoneV]), self).
Proof.
  induction t as [s | | v | l cs IH] using node_children_ind;
    intros Hwf Htok; try discriminate.
  cbn [well_formed] in Hwf. apply andb_prop in Hwf as [Hne Hcs].
  cbn [tokens] in Htok.
  destruct (collect_children_absent cs self IH Hcs Htok)
    as [ts [Ets [Hts Hlen]]].
  assert (Hts_ne : ts <> []).
  { intros ->. cbn in Hlen. rewrite <- Hlen in Hne. discriminate. }
  exists l. rewrite evaluate_Tree. unfold bind. rewrite Ets.
  now apply after_loop_absent.
Qed.

(** X5. When no token of a well-formed tree has a vector, [evaluate] returns and
    leaves [None] as the payload of the root, whatever the labels and the
    number of children of the nodes are. *)
Theorem evaluate_all_absent self (l : string) (cs : list (node V)) :
  data self = Tree l cs ->
  well_formed (data self) = true ->
  Forall (fun s => safe_lookup (word_vectors self) s = None)
    (tokens (data self)) ->
  evaluate mmult1 self = (Ok tt, with_data self (Tree l [NoneV])).
Proof.
  intros Hd Hwf Htok.
  destruct (evaluate_absent _ self Hwf Htok) as [l' E].
  destruct (evaluate_returns_labelled_value _ _ _ _ E)
    as [l0 [cs0 [v [Hd' [Hr _]]]]].
  rewrite Hd in Hd'. injection Hd' as <- <-. injection Hr as ->.
  unfold evaluate, bind. now rewrite E.
Qed.

(** ** Folds over vectors *)

Lemma kept_not_ignored (p : string * V) :
  kept p = true -> str_in (fst p) ignore_labels = false.
Proof. unfold kept. now destruct (str_in _ _). Qed.

Lemma evaluate_2_kept self (l1 l2 parent : string) (a b : V) :
  str_in l1 ignore_labels = false -> str_in l2 ignore_labels = false ->
  __evaluate_2 self (Tree l1 [Vec a]) (Tree l2 [Vec b]) parent
  = Ok (Tree parent [Vec (default_op self a b)]).
Proof.
  intros H1 H2. unfold __evaluate_2, __binary_operation.
  cbn [label getitem0 rbind resolve is_None]. now rewrite H1, H2.
Qed.

Lemma evaluate_2_left_ignored self (l1 l2 parent : string) (a b : V) :
  str_in l1 ignore_labels = true -> str_in l2 ignore_labels = false ->
  __evaluate_2 self (Tree l1 [Vec a]) (Tree l2 [Vec b]) parent
  = Ok (Tree parent [Vec b]).
Proof.
  intros H1 H2. unfold __evaluate_2, __binary_operation.
  cbn [label getitem0 rbind resolve is_None]. now rewrite H1, H2.
Qed.

Lemma evaluate_2_right_ignored self (l1 l2 parent : string) (a b : V) :
  str_in l1 ignore_labels = false -> str_in l2 ignore_labels = true ->
  __evaluate_2 self (Tree l1 [Vec a]) (Tree l2 [Vec b]) parent
  = Ok (Tree parent [Vec a]).
Proof.
  intros H1 H2. unfold __evaluate_2, __binary_operation.
  cbn [label getitem0 rbind resolve is_None]. now rewrite H1, H2.
Qed.

Lemma for_each_left_kept self (rest : list (string * V)) (l0 : string)
  (v0 : V) :
  str_in l0 ignore_labels = false -> forallb kept rest = true ->
  for_each (fun current tree => pair_left self current tree)
    (map vector_tree rest) (Tree l0 [Vec v0])
  = Ok (Tree l0 [Vec (fold_left (fun acc p => default_op self acc (snd p))
                        rest v0)]).
Proof.
  intros H0. revert v0. induction rest as [| p rest IH]; intros v0 Hr.
  - reflexivity.
  - cbn [forallb] in Hr. apply andb_prop in Hr as [Hp Hr].
    cbn [map for_each fold_left]. unfold pair_left at 1, vector_tree at 1.
    cbn [label rbind].
    rewrite (evaluate_2_kept self l0 (fst p) l0 v0 (snd p) H0
               (kept_not_ignored _ Hp)).
    now apply IH.
Qed.

Lemma fold_right_kept self (before : list (string * V)) (l : string) (v : V) :
  str_in l ignore_labels = false -> forallb kept before = true ->
  fold_right
    (fun tree acc => (current <- acc;; pair_right self tree current)%res)
    (Ok (Tree l [Vec v])) (map vector_tree before)
  = Ok (Tree l [Vec (fold_right (fun p acc => default_op self (snd p) acc)
                       v before)]).
Proof.
  intros H0. induction before as [| p before IH]; intros Hb.
  - reflexivity.
  - cbn [forallb] in Hb. apply andb_prop in Hb as [Hp Hb].
    cbn [map fold_right]. rewrite (IH Hb). cbn [rbind].
    unfold pair_right, vector_tree. cbn [label rbind].
    now rewrite (evaluate_2_kept self (fst p) l l (snd p) _
                   (kept_not_ignored _ Hp) H0).
Qed.

Lemma right_to_left_fold_snoc self (before : list (node V)) (final : node V) :
  __evaluate_right2left self (before ++ [final])
  = fold_right
      (fun tree acc => (current <- acc;; pair_right self tree current)%res)
      (Ok final) before.
Proof.
  rewrite evaluate_right2left_fold by (now destruct before).
  unfold right_to_left_fold. now rewrite removelast_last, last_last.
Qed.

(** X10. When no label of the children is in the ignore list and every child has
    a vector, the left-to-right fold is the operator iterated from the left
    over the vectors and the right-to-left fold is the operator iterated from
    the right; the result carries the label of the child the fold began
    with. *)
Theorem folds_iterate_operator self (first final : string * V)
  (rest before : list (string * V)) :
  forallb kept (first :: rest) = true ->
  forallb kept (before ++ [final]) = true ->
  __evaluate_left2right self (map vector_tree (first :: rest))
  = Ok (Tree (fst first)
          [Vec (fold_left (fun acc p => default_op self acc (snd p))
                  rest (snd first))]) /\
  __evaluate_right2left self (map vector_tree (before ++ [final]))
  = Ok (Tree (fst final)
          [Vec (fold_right (fun p acc => default_op self (snd p) acc)
                  (snd final) before)]).
Proof.
  intros Hl Hr. split.
  - cbn [forallb] in Hl. apply andb_prop in Hl as [Hf Hrest].
    cbn [map]. unfold __evaluate_left2right, vector_tree at 1.
    now apply for_each_left_kept; [apply kept_not_ignored |].
  - rewrite forallb_app in Hr. apply andb_prop in Hr as [Hb Hf].
    cbn [forallb] in Hf. rewrite andb_true_r in Hf.
    rewrite map_app. cbn [map]. rewrite right_to_left_fold_snoc.
    unfold vector_tree at 2.
    now apply fold_right_kept; [apply kept_not_ignored |].
Qed.

Lemma last_default_irrelevant {A} (xs : list A) (d d' : A) :
  xs <> [] -> last xs d = last xs d'.
Proof.
  induction xs as [| x [| y xs] IH]; intros H; [congruence | reflexivity |].
  change (last (y :: xs) d = last (y :: xs) d'). apply IH. congruence.
Qed.

Lemma for_each_left_seed_ignored self (rest : list (string * V))
  (l0 : string) (v0 : V) :
  str_in l0 ignore_labels = true -> forallb kept rest = true ->
  for_each (fun current tree => pair_left self current tree)
    (map vector_tree rest) (Tree l0 [Vec v0])
  = Ok (Tree l0 [Vec (snd (last rest (l0, v0)))]).
Proof.
  intros H0. revert v0. induction rest as [| p rest IH]; intros v0 Hr.
  - reflexivity.
  - cbn [forallb] in Hr. apply andb_prop in Hr as [Hp Hr].
    cbn [map for_each]. unfold pair_left at 1, vector_tree at 1.
    cbn [label rbind].
    rewrite (evaluate_2_left_ignored self l0 (fst p) l0 v0 (snd p) H0
               (kept_not_ignored _ Hp)).
    rewrite (IH (snd p) Hr). destruct rest as [| q rest]; [reflexivity |].
    change (last (p :: q :: rest) (l0, v0)) with (last (q :: rest) (l0, v0)).
    rewrite (last_default_irrelevant (q :: rest) (l0, snd p) (l0, v0));
      [reflexivity | congruence].
Qed.

Lemma fold_right_seed_ignored self (before : list (string * V)) (l : string)
  (v : V) :
  str_in l ignore_labels = true -> forallb kept before = true ->
  fold_right
    (fun tree acc => (current <- acc;; pair_right self tree current)%res)
    (Ok (Tree l [Vec v])) (map vector_tree before)
  = Ok (Tree l [Vec (snd (hd (l, v) before))]).
Proof.
  intros H0 Hb. destruct before as [| p before]; [reflexivity |].
  cbn [forallb] in Hb. apply andb_prop in Hb as [Hp Hb].
  cbn [map fold_right hd].
  assert (Hin : exists w,
             fold_right
               (fun tree acc =>
                  (current <- acc;; pair_right self tree current)%res)
               (Ok (Tree l [Vec v])) (map vector_tree before)
             = Ok (Tree l [Vec w])).
  { clear Hp. induction before as [| q before IH]; [now exists v |].
    cbn [forallb] in Hb. apply andb_prop in Hb as [Hq Hb].
    destruct (IH Hb) as [w E]. exists (snd q).
    cbn [map fold_right]. rewrite E. cbn [rbind].
    unfold pair_right, vector_tree. cbn [label rbind].
    now apply evaluate_2_right_ignored; [apply kept_not_ignored |]. }
  destruct Hin as [w ->]. cbn [rbind].
  unfold pair_right, vector_tree. cbn [label rbind].
  now apply evaluate_2_right_ignored; [apply kept_not_ignored |].
Qed.

(** X11. When the child a fold begins with carries an ignore label and no other
    child does, every pairing passes the other operand through: the
    left-to-right fold returns the vector of the last child alone and the
    right-to-left fold the vector of the first child alone. *)
Theorem ignored_seed_drops_operands self (first final : string * V)
  (rest before : list (string * V)) :
  str_in (fst first) ignore_labels = true -> forallb kept rest = true ->
  str_in (fst final) ignore_labels = true -> forallb kept before = true ->
  __evaluate_left2right self (map vector_tree (first :: rest))
  = Ok (Tree (fst first) [Vec (snd (last rest first))]) /\
  __evaluate_right2left self (map vector_tree (before ++ [final]))
  = Ok (Tree (fst final) [Vec (snd (hd final before))]).
Proof.
  intros Hf Hrest Hl Hb. split.
  - pose proof (for_each_left_seed_ignored self rest (fst first) (snd first)
                  Hf Hrest) as E.
    destruct first as [l v]. exact E.
  - rewrite map_app. cbn [map]. rewrite right_to_left_fold_snoc.
    pose proof (fold_right_seed_ignored self before (fst final) (snd final)
                  Hl Hb) as E.
    destruct final as [l v]. exact E.
Qed.

(** ** Flat nodes *)

Lemma evaluate_2_resolved self (l1 l2 parent : string) (x1 x2 : node V)
  (a b : V) :
  resolve self x1 = Vec a -> resolve self x2 = Vec b ->
  str_in l1 ignore_labels = false -> str_in l2 ignore_labels = false ->
  __evaluate_2 self (Tree l1 [x1]) (Tree l2 [x2]) parent
  = Ok (Tree parent [Vec (default_op self a b)]).
Proof.
  intros R1 R2 H1 H2. unfold __evaluate_2, __binary_operation.
  cbn [label getitem0 rbind]. rewrite R1, R2, H1, H2. reflexivity.
Qed.

Lemma known_resolve self (e : entry V) :
  known self e -> resolve self (Str (snd (fst e))) = Vec (snd e).
Proof. unfold known. intros H. cbn. now rewrite H. Qed.

Lemma kept_tag_not_ignored (e : entry V) :
  kept_tag e = true -> str_in (fst (fst e)) ignore_labels = false.
Proof. unfold kept_tag. now destruct (str_in _ _). Qed.

Lemma for_each_left_entries self (rest : list (entry V)) (l0 : string) (v0 : V) :
  str_in l0 ignore_labels = false ->
  Forall (known self) rest -> forallb kept_tag rest = true ->
  for_each (fun current tree => pair_left self current tree)
    (map entry_leaf rest) (Tree l0 [Vec v0])
  = Ok (Tree l0 [Vec (fold_left (fun acc e => default_op self acc (snd e))
                        rest v0)]).
Proof.
  intros H0 Hk. revert v0.
  induction Hk as [| e rest He _ IH]; intros v0 Hr; [reflexivity |].
  cbn [forallb] in Hr. apply andb_prop in Hr as [Hp Hr].
  cbn [map for_each fold_left]. unfold pair_left at 1. cbn [label rbind].
  unfold entry_leaf at 1, tagged_leaf.
  rewrite (evaluate_2_resolved self l0 _ l0 (Vec v0) _ v0 (snd e) eq_refl
             (known_resolve self e He) H0 (kept_tag_not_ignored e Hp)).
  now apply IH.
Qed.

Lemma fold_right_entries self (before : list (entry V)) (l : string) (v : V) :
  str_in l ignore_labels = false ->
  Forall (known self) before -> forallb kept_tag before = true ->
  fold_right
    (fun tree acc => (current <- acc;; pair_right self tree current)%res)
    (Ok (Tree l [Vec v])) (map entry_leaf before)
  = Ok (Tree l [Vec (fold_right (fun e acc => default_op self (snd e) acc)
                       v before)]).
Proof.
  intros H0 Hk. induction Hk as [| e before He _ IH]; intros Hb;
    [reflexivity |].
  cbn [forallb] in Hb. apply andb_prop in Hb as [Hp Hb].
  cbn [map fold_right]. rewrite (IH Hb). cbn [rbind].
  unfold pair_right. cbn [label rbind]. unfold entry_leaf, tagged_leaf.
  now rewrite (evaluate_2_resolved self _ l l _ (Vec _) (snd e) _
                 (known_resolve self e He) eq_refl
                 (kept_tag_not_ignored e Hp) H0).
Qed.

Lemma collect_children_leaves (ev : node V -> M V (node V))
  (cs : list (node V)) self :
  forallb preterminal cs = true ->
  collect_children ev cs self = (Ok cs, self).
Proof.
  induction cs as [| c cs IH]; intros H; [reflexivity |].
  cbn [forallb] in H. apply andb_prop in H as [Hc Hcs].
  rewrite collect_children_step.
  destruct (preterminal_leaf _ Hc) as [-> _]. now rewrite (IH Hcs).
Qed.

Lemma entry_leaves_preterminal (es : list (entry V)) :
  forallb preterminal (map entry_leaf es) = true.
Proof. induction es as [| e es IH]; [reflexivity | exact IH]. Qed.

Lemma entry_leaves_unit (es : list (entry V)) :
  forallb unit_tree (map entry_leaf es) = true.
Proof. induction es as [| e es IH]; [reflexivity | exact IH]. Qed.

Lemma entry_leaves_adjective (es : list (entry V)) :
  existsb adjective_labelled (map entry_leaf es) = existsb adjective_tag es.
Proof.
  induction es as [| e es IH]; [reflexivity |].
  cbn [map existsb]. now rewrite IH.
Qed.

Lemma evaluate_flat_node self (l : string) (es : list (entry V)) :
  __evaluate mmult1 (Tree l (map entry_leaf es)) self
  = after_loop mmult1 (Tree l (map entry_leaf es)) (map entry_leaf es) self.
Proof.
  rewrite evaluate_Tree. unfold bind.
  now rewrite (collect_children_leaves _ _ self (entry_leaves_preterminal es)).
Qed.

Lemma after_loop_wide (tree : node V) tree_list self :
  2 < length tree_list ->
  after_loop mmult1 tree tree_list self
  = (l <- lift (fun _ => label tree);;
     __evaluate_greater_than_2 mmult1 tree_list l)%M self.
Proof.
  destruct tree_list as [| t0 [| t1 [| t2 rest]]]; cbn [length]; try lia.
  reflexivity.
Qed.

Lemma evaluate_left2right_entries self (first : entry V)
  (rest : list (entry V)) :
  rest <> [] ->
  Forall (known self) (first :: rest) ->
  forallb kept_tag (first :: rest) = true ->
  __evaluate_left2right self (map entry_leaf (first :: rest))
  = Ok (Tree (fst (fst first))
          [Vec (fold_left (fun acc e => default_op self acc (snd e))
                  rest (snd first))]).
Proof.
  intros Hne Hk Hkept. destruct rest as [| second rest]; [congruence |].
  apply Forall_cons_iff in Hk as [Hk0 Hk].
  apply Forall_cons_iff in Hk as [Hk1 Hk].
  cbn [forallb] in Hkept. apply andb_prop in Hkept as [Hp0 Hkept].
  apply andb_prop in Hkept as [Hp1 Hkept].
  change (__evaluate_left2right self (map entry_leaf (first :: second :: rest)))
    with (for_each (fun current tree => pair_left self current tree)
            (map entry_leaf (second :: rest)) (entry_leaf first)).
  assert (Hstep : pair_left self (entry_leaf first) (entry_leaf second)
                  = Ok (Tree (fst (fst first))
                          [Vec (default_op self (snd first) (snd second))])).
  { unfold pair_left, entry_leaf, tagged_leaf. cbn [label rbind].
    apply evaluate_2_resolved;
      auto using known_resolve, kept_tag_not_ignored. }
  cbn [map for_each fold_left]. rewrite Hstep.
  now apply for_each_left_entries; [apply kept_tag_not_ignored | |].
Qed.

Lemma evaluate_right2left_entries self (before : list (entry V))
  (final : entry V) :
  before <> [] ->
  Forall (known self) (before ++ [final]) ->
  forallb kept_tag (before ++ [final]) = true ->
  __evaluate_right2left self (map entry_leaf (before ++ [final]))
  = Ok (Tree (fst (fst final))
          [Vec (fold_right (fun e acc => default_op self (snd e) acc)
                  (snd final) before)]).
Proof.
  intros Hne Hk Hkept.
  destruct (exists_last Hne) as [front [pen ->]].
  apply Forall_app in Hk as [Hk Hkf]. apply Forall_app in Hk as [Hkb Hkp].
  apply Forall_inv in Hkf. apply Forall_inv in Hkp.
  rewrite !forallb_app in Hkept. cbn [forallb] in Hkept.
  rewrite !andb_true_r in Hkept.
  apply andb_prop in Hkept as [Hkept Hpf].
  apply andb_prop in Hkept as [Hpb Hpp].
  rewrite map_app. cbn [map]. rewrite right_to_left_fold_snoc.
  assert (Hstep : pair_right self (entry_leaf pen) (entry_leaf final)
                  = Ok (Tree (fst (fst final))
                          [Vec (default_op self (snd pen) (snd final))])).
  { unfold pair_right, entry_leaf, tagged_leaf. cbn [label rbind].
    apply evaluate_2_resolved;
      auto using known_resolve, kept_tag_not_ignored. }
  rewrite map_app. cbn [map]. rewrite !fold_right_app.
  cbn [fold_right rbind]. rewrite Hstep.
  now apply fold_right_entries; [apply kept_tag_not_ignored | |].
Qed.

(** X8. A node over tagged leaves whose tokens all have vectors and whose tags
    are not in the ignore list, with at most two leaves or without an
    adjective tag: its value is the default operator iterated from the left
    over the vectors of the leaves. *)
Theorem flat_node_left_fold self (l : string) (first : entry V)
  (rest : list (entry V)) :
  Forall (known self) (first :: rest) ->
  forallb kept_tag (first :: rest) = true ->
  length rest < 2 \/ existsb adjective_tag (first :: rest) = false ->
  __evaluate mmult1 (Tree l (map entry_leaf (first :: rest))) self
  = (Ok (Tree l [Vec (fold_left (fun acc e => default_op self acc (snd e))
                        rest (snd first))]), self).
Proof.
  intros Hk Hkept Hcase. rewrite evaluate_flat_node.
  destruct rest as [| second [| third rest]].
  - apply Forall_inv in Hk.
    unfold after_loop, bind, lift, ret. cbn [map getitem0 entry_leaf
      tagged_leaf label fold_left].
    now rewrite (known_resolve self first Hk).
  - pose proof (evaluate_left2right_entries self first [second]
                  ltac:(congruence) Hk Hkept) as E.
    apply Forall_cons_iff in Hk as [Hk0 Hk]. apply Forall_inv in Hk.
    cbn [forallb] in Hkept. apply andb_prop in Hkept as [Hp0 Hkept].
    rewrite andb_true_r in Hkept.
    unfold after_loop, bind, lift. cbn [map label fold_left].
    unfold entry_leaf, tagged_leaf.
    now rewrite (evaluate_2_resolved self _ _ l _ _ _ _
                   (known_resolve self first Hk0)
                   (known_resolve self second Hk)
                   (kept_tag_not_ignored first Hp0)
                   (kept_tag_not_ignored second Hkept)).
  - destruct Hcase as [Hlen | Hadj]; [cbn in Hlen; lia |].
    rewrite after_loop_wide by (cbn; lia).
    unfold bind at 1, lift at 1. cbn [label].
    destruct (evaluate_greater_than_2_unit mmult1 self
                (map entry_leaf (first :: second :: third :: rest)) l)
      as [l' [x [_ [E ->]]]];
      [cbn; lia | apply entry_leaves_unit |].
    rewrite entry_leaves_adjective, Hadj in E.
    rewrite (evaluate_left2right_entries self first (second :: third :: rest)
               ltac:(congruence) Hk Hkept) in E.
    now injection E as _ <-.
Qed.

(** X9. A node over more than two tagged leaves, one of them with an adjective
    tag, whose tokens all have vectors and whose tags are not in the ignore
    list: its value is the projection operator iterated from the right over
    the vectors of the leaves, and [self] keeps its default operator. *)
Theorem flat_node_right_fold self (l : string) (before : list (entry V))
  (final : entry V) :
  1 < length before ->
  Forall (known self) (before ++ [final]) ->
  forallb kept_tag (before ++ [final]) = true ->
  existsb adjective_tag (before ++ [final]) = true ->
  __evaluate mmult1 (Tree l (map entry_leaf (before ++ [final]))) self
  = (Ok (Tree l [Vec (fold_right (fun e acc => mmult1 (snd e) acc)
                        (snd final) before)]), self).
Proof.
  intros Hlen Hk Hkept Hadj. rewrite evaluate_flat_node.
  assert (Hlen3 : 2 < length (map entry_leaf (before ++ [final])))
    by (rewrite length_map, length_app; cbn; lia).
  rewrite after_loop_wide by assumption.
  unfold bind at 1, lift at 1. cbn [label].
  destruct (evaluate_greater_than_2_unit mmult1 self
              (map entry_leaf (before ++ [final])) l Hlen3
              (entry_leaves_unit _)) as [l' [x [_ [E ->]]]].
  rewrite entry_leaves_adjective, Hadj in E.
  rewrite (evaluate_right2left_entries (with_default_op self mmult1)
             before final) in E;
    [| destruct before; [cbn in Hlen; lia | congruence] | exact Hk
     | exact Hkept].
  now injection E as _ <-.
Qed.

(** ** Flat construction *)

Lemma split_scan_nonempty (sep : string) (skip : nat) (acc : list ascii)
  (s : string) : split_scan sep skip acc s <> [].
Proof.
  revert skip acc. induction s as [| c s IH]; intros skip acc;
    [discriminate |].
  cbn [split_scan]. destruct skip; [| apply IH].
  destruct (String.prefix sep (String c s)); [discriminate | apply IH].
Qed.

Lemma tagged_leaves_tokens (tags leaves : list string) :
  length tags = length leaves ->
  flat_map tokens (map (@tagged_leaf V) (combine tags leaves)) = leaves.
Proof.
  revert leaves. induction tags as [| t tags IH]; intros [| x leaves] H;
    try discriminate; [reflexivity |].
  cbn. f_equal. apply IH. now injection H.
Qed.

Lemma untagged_leaves_tokens (leaves : list string) :
  flat_map tokens (map (fun leaf => @Tree V "" [Str leaf]) leaves) = leaves.
Proof. induction leaves as [| x leaves IH]; cbn; [| rewrite IH]; reflexivity. Qed.

Lemma preterminals_well_formed (l : string) (cs : list (node V)) :
  cs <> [] -> forallb preterminal cs = true -> well_formed (Tree l cs) = true.
Proof.
  intros Hne H. cbn [well_formed].
  destruct cs as [| c cs]; [congruence |]. cbn [length Nat.eqb negb andb].
  revert H. generalize (c :: cs). intros xs.
  induction xs as [| x xs IH]; [reflexivity |]. cbn [forallb].
  intros H. apply andb_prop in H as [Hx Hxs]. now rewrite Hx, IH.
Qed.

Lemma untagged_leaves_tagged (leaves : list string) :
  map (fun leaf => @Tree V "" [Str leaf]) leaves
  = map tagged_leaf (combine (repeat "" (length leaves)) leaves).
Proof.
  induction leaves as [| x leaves IH]; [reflexivity |].
  cbn [length repeat combine map]. now rewrite IH.
Qed.

Lemma tagged_leaves_preterminal (ps : list (string * string)) :
  forallb preterminal (map (@tagged_leaf V) ps) = true.
Proof. induction ps as [| p ps IH]; [reflexivity | exact IH]. Qed.

(** X12. Flat construction followed by evaluation: for a sentence without an
    opening bracket, a non-empty delimiter and, when tags are given, as many
    tags as pieces, the constructor returns [hl.mult] as default operator and
    a tree under [Root] whose children are, in order, one tagged leaf for
    each piece of the sentence: the i-th child is the tree of the i-th tag
    (the empty tag when no tags are given) over the i-th piece.  [evaluate]
    then returns and leaves one payload under [Root]. *)
Theorem from_sentence_flat_evaluates (sentence : string)
  (wv : VectorSource V) (delimiter : string) (tags : option (list string))
  (leaves : list string) :
  char_in "("%char sentence = false ->
  str_split sentence delimiter = Ok leaves ->
  (forall tg, tags = Some tg -> length tg = length leaves) ->
  length (flat_labels tags (length leaves)) = length leaves /\
  from_sentence mult sentence wv delimiter tags
  = Ok {| data := Tree "Root"
                    (map tagged_leaf
                       (combine (flat_labels tags (length leaves)) leaves));
          default_op := mult; word_vectors := wv |} /\
  tokens (Tree "Root"
            (map (@tagged_leaf V)
               (combine (flat_labels tags (length leaves)) leaves)))
  = leaves /\
  exists v,
    is_value v = true /\
    evaluate mmult1
      {| data := Tree "Root"
                   (map tagged_leaf
                      (combine (flat_labels tags (length leaves)) leaves));
         default_op := mult; word_vectors := wv |}
    = (Ok tt, {| data := Tree "Root" [v]; default_op := mult;
                 word_vectors := wv |}).
Proof.
  intros Hflat Hsplit Htags.
  assert (Hne : leaves <> []).
  { unfold str_split in Hsplit. destruct delimiter; [discriminate |].
    injection Hsplit as <-. apply split_scan_nonempty. }
  assert (Hlab : length (flat_labels tags (length leaves)) = length leaves).
  { destruct tags as [tg |]; [now apply Htags | apply repeat_length]. }
  split; [assumption |]. split; [| split].
  - unfold from_sentence. rewrite Hflat, Hsplit. cbn [negb].
    change (__init__ "()" wv mult)
      with (Ok {| data := @Tree V "" []; default_op := mult;
                  word_vectors := wv |}).
    cbn [rbind]. destruct tags as [tg |]; cbn [flat_labels].
    + rewrite (Htags tg eq_refl), Nat.eqb_refl. reflexivity.
    + cbn [rbind default_op word_vectors].
      now rewrite untagged_leaves_tagged.
  - cbn [tokens]. now apply tagged_leaves_tokens.
  - set (children := map (@tagged_leaf V)
                       (combine (flat_labels tags (length leaves)) leaves)).
    assert (Hcne : children <> []).
    { intros Hnil. apply (f_equal (@length _)) in Hnil.
      unfold children in Hnil.
      rewrite length_map, length_combine, Hlab, Nat.min_id in Hnil.
      destruct leaves; [congruence | discriminate]. }
    pose proof (preterminals_well_formed "Root" children Hcne
                  (tagged_leaves_preterminal _)) as Hwf.
    destruct (evaluate_well_formed mmult1 _ Hwf
                {| data := Tree "Root" children; default_op := mult;
                   word_vectors := wv |}) as [l [v [Hl [Hv E]]]].
    cbn in Hl. injection Hl as <-.
    exists v. split; [assumption |].
    unfold evaluate, bind. cbn [data]. now rewrite E.
Qed.

(** ** The binarizer and the engine *)

Lemma fold_reduce_stuck (n : nat) (lbl : string) (ys : list (node V))
  (acc : option (result (node V))) :
  (forall x, acc <> Some (Ok x)) ->
  fold_left (reduce_step n lbl) ys acc = acc.
Proof.
  intros H. induction ys as [| y ys IH]; [reflexivity |].
  cbn [fold_left]. destruct acc as [[x | e] |];
    [now contradiction (H x) | exact IH | exact IH].
Qed.

Lemma fold_reduce_Ok_inv (n : nat) (lbl : string) (y : node V)
  (ys : list (node V)) (x r : node V) :
  fold_left (reduce_step n lbl) (y :: ys) (Some (Ok x)) = Some (Ok r) ->
  exists bx by_,
    tree_to_binary n x = Some (Ok bx) /\
    tree_to_binary n y = Some (Ok by_) /\
    fold_left (reduce_step n lbl) ys (Some (Ok (Tree lbl [bx; by_])))
    = Some (Ok r).
Proof.
  cbn [fold_left]. unfold reduce_step at 2.
  destruct (tree_to_binary n x) as [[bx | e] |];
    try (rewrite fold_reduce_stuck by discriminate; discriminate).
  destruct (tree_to_binary n y) as [[by_ | e] |];
    try (rewrite fold_reduce_stuck by discriminate; discriminate).
  intros H. now exists bx, by_.
Qed.

Lemma fold_reduce_tokens (n : nat) (lbl : string) :
  (forall t t', tree_to_binary n t = Some (Ok t') -> tokens t' = tokens t) ->
  forall (ys : list (node V)) (x r : node V),
    fold_left (reduce_step n lbl) ys (Some (Ok x)) = Some (Ok r) ->
    tokens r = tokens x ++ flat_map tokens ys.
Proof.
  intros IH. induction ys as [| y ys IHys]; intros x r H.
  - cbn in H. injection H as <-. now rewrite app_nil_r.
  - apply fold_reduce_Ok_inv in H as [bx [by_ [Ex [Ey H]]]].
    rewrite (IHys _ _ H). cbn [tokens flat_map].
    rewrite (IH _ _ Ex), (IH _ _ Ey), app_nil_r. now rewrite app_assoc.
Qed.

Lemma tree_to_binary_tokens (fuel : nat) t (t' : node V) :
  tree_to_binary fuel t = Some (Ok t') -> tokens t' = tokens t.
Proof.
  revert t t'. induction fuel as [| n IH]; intros t t' H; [discriminate |].
  destruct t as [s | | v | l [| a [| b cs]]];
    try rewrite tree_to_binary_reduce in H; cbn [tree_to_binary] in H;
    try discriminate.
  - now injection H as <-.
  - cbn [tokens flat_map]. rewrite app_nil_r. now apply IH.
  - now apply (fold_reduce_tokens n l IH) in H.
Qed.

Lemma strictly_binary_count t :
  strictly_binary t = true -> internal_nodes t + 1 = length (tokens t).
Proof.
  induction t as [s | | v | l cs IH] using node_children_ind;
    try discriminate; [reflexivity |].
  destruct cs as [| a [| b [| c cs]]]; try discriminate.
  cbn [strictly_binary]. intros H. apply andb_prop in H as [Ha Hb].
  apply Forall_cons_iff in IH as [IHa IH]. apply Forall_inv in IH.
  specialize (IHa Ha). specialize (IH Hb).
  cbn [internal_nodes fold_right tokens flat_map].
  rewrite app_nil_r, length_app. lia.
Qed.

(** X13. The binarizer keeps the tokens of the tree and their order, and its
    result has one tree node less than it has tokens. *)
Theorem tree_to_binary_keeps_tokens (fuel : nat) t (t' : node V) :
  tree_to_binary fuel t = Some (Ok t') ->
  tokens t' = tokens t /\ internal_nodes t' + 1 = length (tokens t).
Proof.
  intros H. pose proof (tree_to_binary_tokens _ _ _ H) as Ht.
  split; [assumption |]. rewrite <- Ht.
  apply strictly_binary_count. now apply tree_to_binary_output in H.
Qed.

Lemma fold_reduce_token_tree (n : nat) (lbl : string) :
  (forall t t', tree_to_binary n t = Some (Ok t') -> token_tree t = true) ->
  forall (ys : list (node V)) (x r : node V),
    fold_left (reduce_step n lbl) ys (Some (Ok x)) = Some (Ok r) ->
    forallb token_tree ys = true /\ (ys <> [] -> token_tree x = true).
Proof.
  intros IH. induction ys as [| y ys IHys]; intros x r H.
  - split; [reflexivity | congruence].
  - apply fold_reduce_Ok_inv in H as [bx [by_ [Ex [Ey H]]]].
    destruct (IHys _ _ H) as [Hys _]. cbn [forallb].
    rewrite (IH _ _ Ey), Hys. split; [reflexivity |].
    intros _. exact (IH _ _ Ex).
Qed.

Lemma tree_to_binary_Ok_token_tree (fuel : nat) t (t' : node V) :
  tree_to_binary fuel t = Some (Ok t') -> token_tree t = true.
Proof.
  revert t t'. induction fuel as [| n IH]; intros t t' H; [discriminate |].
  destruct t as [s | | v | l [| a [| b cs]]];
    try rewrite tree_to_binary_reduce in H; cbn [tree_to_binary] in H;
    try discriminate.
  - reflexivity.
  - cbn. rewrite andb_true_r. now apply IH in H.
  - apply (fold_reduce_token_tree n l IH) in H as [Hys Hx].
    cbn [token_tree length Nat.eqb negb andb forallb].
    cbn [forallb] in Hys. rewrite Hys, Hx by congruence. reflexivity.
Qed.

Lemma fold_reduce_outcome (n : nat) (lbl : string) (ys : list (node V)) :
  (forall t, binarizer_outcome n t) ->
  forall (acc : node V) (m : nat),
    strictly_binary acc = true -> height acc < m ->
    m + fold_right (fun c k => size c + k) 0 ys <= n ->
    (exists r,
        fold_left (reduce_step n lbl) ys (Some (Ok acc)) = Some (Ok r) /\
        strictly_binary r = true /\
        height r < m + fold_right (fun c k => size c + k) 0 ys) \/
    (exists e,
        fold_left (reduce_step n lbl) ys (Some (Ok acc)) = Some (Raise e) /\
        (e = TypeError \/ e = AttributeError)).
Proof.
  intros IH. induction ys as [| y ys IHys]; intros acc m Hacc Hm Hn.
  - left. exists acc. cbn. repeat split; [assumption | lia].
  - cbn [fold_right] in Hn |- *. cbn [fold_left].
    assert (Hstep : reduce_step n lbl (Some (Ok acc)) y
                    = match tree_to_binary n y with
                      | Some (Ok by_) => Some (Ok (Tree lbl [acc; by_]))
                      | other => other
                      end).
    { unfold reduce_step.
      now rewrite (tree_to_binary_strictly_binary n acc Hacc) by lia. }
    rewrite Hstep. clear Hstep.
    destruct (IH y) as [[by_ [Ey [Hby Hhy]]] | [e [Ey He]]]; [lia | |].
    + rewrite Ey.
      destruct (IHys (Tree lbl [acc; by_]) (m + size y))
        as [[r [Er [Hr Hh]]] | [e [Er He]]].
      * cbn. now rewrite Hacc, Hby.
      * cbn. lia.
      * lia.
      * left. exists r. repeat split; [assumption | assumption | lia].
      * right. now exists e.
    + rewrite Ey. rewrite fold_reduce_stuck by discriminate.
      right. now exists e.
Qed.

Lemma tree_to_binary_outcome (fuel : nat) t : binarizer_outcome fuel t.
Proof.
  revert t. induction fuel as [| n IH]; intros t Hsize.
  - pose proof (size_positive t). lia.
  - destruct t as [s | | v | l [| a [| b cs]]].
    + left. exists (Str s). cbn. repeat split. lia.
    + right. exists TypeError. split; [reflexivity | now left].
    + right. exists AttributeError. split; [reflexivity | now right].
    + right. exists TypeError. split; [reflexivity | now left].
    + cbn in Hsize. cbn [tree_to_binary].
      destruct (IH a) as [[t' [E [Hb Hh]]] | [e [E He]]]; [lia | |].
      * left. exists t'. repeat split; try assumption. cbn. lia.
      * right. now exists e.
    + cbn [size fold_right] in Hsize.
      rewrite tree_to_binary_reduce. cbn [fold_left].
      assert (Hstep : reduce_step n l (Some (Ok a)) b
                      = match tree_to_binary n a with
                        | Some (Ok bx) =>
                            match tree_to_binary n b with
                            | Some (Ok by_) => Some (Ok (Tree l [bx; by_]))
                            | other => other
                            end
                        | other => other
                        end) by reflexivity.
      rewrite Hstep. clear Hstep.
      destruct (IH a) as [[ba [Ea [Hba Hha]]] | [e [Ea He]]]; [lia | |];
        rewrite Ea;
        [| rewrite fold_reduce_stuck by discriminate; right; now exists e].
      destruct (IH b) as [[bb [Eb [Hbb Hhb]]] | [e [Eb He]]]; [lia | |];
        rewrite Eb;
        [| rewrite fold_reduce_stuck by discriminate; right; now exists e].
      destruct (fold_reduce_outcome n l cs IH (Tree l [ba; bb])
                  (size a + size b))
        as [[r [Er [Hr Hh]]] | [e [Er He]]].
      * cbn. now rewrite Hba, Hbb.
      * cbn. lia.
      * lia.
      * left. exists r. repeat split; try assumption.
        cbn [size fold_right]. lia.
      * right. now exists e.
Qed.

(** X14. Given fuel for the size of the tree, the binarizer returns a tree
    exactly when every leaf of its input is a token and every tree node of
    its input has a child; on every other input (a [None] or a vector among
    the leaves, or a node without children) it raises, a [TypeError] or an
    [AttributeError], and the fuel does not run out. *)
Theorem tree_to_binary_returns_iff (fuel : nat) t :
  size t <= fuel ->
  ((exists t', tree_to_binary fuel t = Some (Ok t')) <-> token_tree t = true) /\
  (token_tree t = false ->
   exists e, tree_to_binary fuel t = Some (Raise e) /\
             (e = TypeError \/ e = AttributeError)).
Proof.
  intros Hsize. split; [split |].
  - intros [t' H]. now apply tree_to_binary_Ok_token_tree in H.
  - intros Ht.
    destruct (tree_to_binary_total fuel t Ht Hsize) as [t' [E _]].
    now exists t'.
  - intros Ht.
    destruct (tree_to_binary_outcome fuel t Hsize)
      as [[t' [E _]] | H]; [| exact H].
    apply tree_to_binary_Ok_token_tree in E. congruence.
Qed.

Lemma strictly_binary_raises t :
  strictly_binary t = true ->
  forall self, __evaluate mmult1 t self = (Raise AttributeError, self).
Proof.
  induction t as [s | | v | l cs IH] using node_children_ind;
    try discriminate; intros Hb self; [apply evaluate_Str_raises |].
  destruct cs as [| a [| b [| c cs]]]; try discriminate.
  cbn [strictly_binary] in Hb. apply andb_prop in Hb as [Ha Hb].
  apply Forall_cons_iff in IH as [IHa IH]. apply Forall_inv in IH.
  specialize (IHa Ha). specialize (IH Hb).
  rewrite evaluate_Tree. unfold bind.
  assert (Hleaf : forall x : node V, strictly_binary x = true ->
                    (exists c, x = Str (String c EmptyString) /\
                               __tree_is_leaf x = Ok true) \/
                    __tree_is_leaf x = Ok false).
  { intros x Hx. destruct x as [s | | v | l' [| p [| q [| r rs]]]];
      try discriminate; [| now right].
    destruct s as [| c [| c' s]]; [now right | | now right].
    left. now exists c. }
  rewrite collect_children_step.
  destruct (Hleaf a Ha) as [[ca [-> ->]] | ->]; [| now rewrite IHa].
  cbn beta iota. rewrite collect_children_step.
  destruct (Hleaf b Hb) as [[cb [-> ->]] | ->]; [| now rewrite IH].
  reflexivity.
Qed.

(** X15. The engine cannot evaluate what the binarizer returns: the leaves of a
    binarized tree are bare tokens, which have no label, and [evaluate]
    raises [AttributeError] and leaves [self] as it was. *)
Theorem binarized_tree_not_evaluable (fuel : nat) t (t' : node V) self :
  tree_to_binary fuel t = Some (Ok t') ->
  data self = t' ->
  evaluate mmult1 self = (Raise AttributeError, self).
Proof.
  intros H Hd. apply tree_to_binary_output in H.
  unfold evaluate, bind. rewrite Hd.
  now rewrite (strictly_binary_raises t' H self).
Qed.

(** ** Composition *)

Lemma collect_children_collected (cs ts : list (node V)) self :
  Forall2 (collected mmult1 self) cs ts ->
  collect_children (__evaluate mmult1) cs self = (Ok ts, self).
Proof.
  induction 1 as [| c r cs ts Hc _ IH]; [reflexivity |].
  rewrite collect_children_step.
  destruct Hc as [[-> ->] | [-> [self' E]]].
  - now rewrite IH.
  - pose proof (evaluate_frame mmult1 _ _ _ _ E) as ->.
    now rewrite E, IH.
Qed.

(** X6. The evaluation of a node is made of the evaluations of its children,
    each taken in the state in which the node is met: the leaves as they
    are and the results of the other children, in order, are what is
    combined, by lookup for one, by [__evaluate_2] for two and by a fold for
    more. *)
Theorem evaluate_composes self (l : string) (cs ts : list (node V)) :
  Forall2 (collected mmult1 self) cs ts ->
  __evaluate mmult1 (Tree l cs) self
  = after_loop mmult1 (Tree l cs) ts self.
Proof.
  intros H. rewrite evaluate_Tree. unfold bind.
  now rewrite (collect_children_collected cs ts self H).
Qed.

(** X7. A node with a single child that is not a leaf has the value of that
    child: it returns the payload of the child's result under its own
    label. *)
Theorem single_child_passes_value self (l : string) (c r : node V) self' :
  __tree_is_leaf c = Ok false ->
  __evaluate mmult1 c self = (Ok r, self') ->
  exists lc v,
    r = Tree lc [v] /\
    __evaluate mmult1 (Tree l [c]) self = (Ok (Tree l [v]), self).
Proof.
  intros Hleaf E.
  pose proof (evaluate_frame mmult1 _ _ _ _ E) as ->.
  destruct (evaluate_returns_labelled_value _ _ _ _ E)
    as [lc [cs [v [_ [-> Hv]]]]].
  exists lc, v. split; [reflexivity |].
  rewrite evaluate_Tree. unfold bind. rewrite collect_children_step.
  rewrite Hleaf, E. cbn [collect_children]. unfold ret.
  unfold after_loop, bind, lift, ret. cbn [getitem0 label].
  destruct v; try discriminate; reflexivity.
Qed.

End Engine.

(** * The theorems at concrete inputs *)

Import Demo.

(** The end-to-end example of the specification: the determiner has no
    vector, the noun phrase resolves to the vector of the noun, and the
    sentence to the product of the two vectors. *)
Example sentence_tree_parsed :
  Tree_fromstring "(S (NP (DT the) (NN cat)) (VP (VBZ sits)))"
  = Ok sentence_tree.
Proof. reflexivity. Qed.

Example sentence_tree_evaluated :
  evaluate Z.sub (engine sentence_tree)
  = (Ok tt, engine (Tree "S" [Vec (3 * 5)%Z])).
Proof. reflexivity. Qed.

(** The flat example of the specification: the adjective tag makes the root
    a right-to-left fold with the projection operator, 2 - (7 - 11). *)
Example flat_tree_constructed :
  from_sentence Z.mul "red ball flies" vectors " " (Some ["jj"; "nn"; "vbz"])
  = Ok (engine flat_tree).
Proof. reflexivity. Qed.

Example flat_tree_evaluated :
  evaluate Z.sub (engine flat_tree)
  = (Ok tt, engine (Tree "Root" [Vec (2 - (7 - 11))%Z])).
Proof. reflexivity. Qed.

Example unbalanced_string_rejected :
  @Tree_fromstring Z "(S (A a)" = Raise ValueError.
Proof. reflexivity. Qed.

(** A tagged leaf alone is not a well-formed input of the engine: its token
    is iterated character by character and has no label. *)
Example tagged_leaf_alone :
  evaluate Z.sub (engine (Tree "NN" [Str "cat"]))
  = (Raise AttributeError, engine (Tree "NN" [Str "cat"])).
Proof. reflexivity. Qed.

(** A bare one-character token among the children of an adjective fold makes
    the fold raise, and the projection operator then stays in place. *)
Example raising_fold_keeps_projection :
  evaluate Z.sub
    (engine (Tree "S" [Tree "JJ" [Str "red"]; Str "a"; Tree "NN" [Str "ball"]]))
  = (Raise AttributeError,
     with_default_op
       (engine (Tree "S" [Tree "JJ" [Str "red"]; Str "a";
                          Tree "NN" [Str "ball"]])) Z.sub).
Proof. reflexivity. Qed.

Lemma evaluate_greater_than_2_folds_witness :
  exists r x,
    right_to_left_fold (with_default_op (engine flat_tree) Z.sub)
      [Tree "jj" [Str "red"]; Tree "nn" [Str "ball"]; Tree "vbz" [Str "flies"]]
    = Ok r /\
    getitem0 r = Ok x /\
    __evaluate_greater_than_2 Z.sub
      [Tree "jj" [Str "red"]; Tree "nn" [Str "ball"]; Tree "vbz" [Str "flies"]]
      "Root" (engine flat_tree)
    = (Ok (Tree "Root" [x]), engine flat_tree).
Proof.
  apply (evaluate_greater_than_2_folds Z.sub (engine flat_tree)
           [Tree "jj" [Str "red"]; Tree "nn" [Str "ball"];
            Tree "vbz" [Str "flies"]] "Root").
  - cbn. lia.
  - reflexivity.
Defined.

Lemma evaluate_2_absent_witness :
  __evaluate_2 (engine sentence_tree) (Tree "DT" [Str "the"])
    (Tree "NN" [Str "cat"]) "NP"
  = Ok (Tree "NP" [Vec 3%Z]).
Proof.
  apply (proj1 (proj2 (evaluate_2_absent (engine sentence_tree) "DT" "NN" "NP"
                         (Str "the") (Str "cat") [] []))).
  - reflexivity.
  - cbn. discriminate.
Defined.

Lemma binary_operation_rules_witness :
  __binary_operation (engine sentence_tree) "dt" "nn" (Vec 2%Z) (Vec 3%Z)
  = Ok (Vec 3%Z).
Proof.
  apply (proj1 (proj2 (binary_operation_rules (engine sentence_tree)
                         "dt" "nn" 2%Z 3%Z))).
  - cbn. tauto.
  - cbn. intros H. repeat destruct H as [H | H]; try discriminate H.
    exact H.
Defined.

Lemma evaluate_single_node_witness :
  exists l v,
    label sentence_tree = Ok l /\ is_value v = true /\
    evaluate Z.sub (engine sentence_tree)
    = (Ok tt, with_data (engine sentence_tree) (Tree l [v])).
Proof.
  apply (evaluate_single_node Z.sub (engine sentence_tree)). reflexivity.
Defined.

Lemma bracketed_tree_reaches_greater_than_2_witness :
  Tree_fromstring bracketed = Ok bracketed_tree /\
  at_most_binary bracketed_tree = false /\
  exists tree_list,
    Forall2 (collected Z.sub (engine bracketed_tree))
      [Tree "JJ" [Str "red"]; Tree "NN" [Str "ball"]; Tree "VBZ" [Str "flies"]]
      tree_list /\
    (forall others,
        Forall2 (collected Z.sub (engine bracketed_tree))
          [Tree "JJ" [Str "red"]; Tree "NN" [Str "ball"];
           Tree "VBZ" [Str "flies"]] others ->
        others = tree_list) /\
    length tree_list = 3 /\
    forallb unit_tree tree_list = true /\
    __evaluate Z.sub bracketed_tree (engine bracketed_tree)
    = __evaluate_greater_than_2 Z.sub tree_list "S" (engine bracketed_tree).
Proof.
  apply (bracketed_tree_reaches_greater_than_2 Z.sub bracketed vectors Z.mul
           (engine bracketed_tree) "S"
           [Tree "JJ" [Str "red"]; Tree "NN" [Str "ball"];
            Tree "VBZ" [Str "flies"]]).
  - reflexivity.
  - reflexivity.
  - reflexivity.
  - cbn. lia.
Defined.

Lemma fold_composite_label_witness :
  (exists l x,
      label (Tree "dt" [@Str Z "red"]) = Ok l /\
      __evaluate_left2right (engine determiner_tree)
        [Tree "dt" [Str "red"]; Tree "nn" [Str "ball"]] = Ok (Tree l [x]) /\
      __evaluate_left2right (engine determiner_tree)
        [Tree "dt" [Str "red"]; Tree "nn" [Str "ball"];
         Tree "vbz" [Str "flies"]]
      = __evaluate_2 (engine determiner_tree) (Tree l [x])
          (Tree "vbz" [Str "flies"]) l) /\
  (exists l x,
      label (Tree "nn" [@Str Z "ball"]) = Ok l /\
      __evaluate_right2left (engine determiner_tree)
        [Tree "dt" [Str "red"]; Tree "nn" [Str "ball"]] = Ok (Tree l [x]) /\
      __evaluate_right2left (engine determiner_tree)
        [Tree "vbz" [Str "flies"]; Tree "dt" [Str "red"];
         Tree "nn" [Str "ball"]]
      = __evaluate_2 (engine determiner_tree) (Tree "vbz" [Str "flies"])
          (Tree l [x]) l).
Proof.
  apply (fold_composite_label (engine determiner_tree)
           [Tree "dt" [Str "red"]; Tree "nn" [Str "ball"]]
           (Tree "vbz" [Str "flies"])).
  - discriminate.
  - reflexivity.
Defined.

Lemma tree_to_binary_idempotent_witness :
  exists t',
    tree_to_binary 9 sentence_tree = Some (Ok t') /\
    strictly_binary t' = true /\
    forall fuel', height t' < fuel' ->
                  tree_to_binary fuel' t' = Some (Ok t').
Proof.
  apply (proj2 (tree_to_binary_idempotent 9 sentence_tree)).
  - reflexivity.
  - cbn. lia.
Defined.

Lemma from_sentence_tag_mismatch_witness :
  from_sentence Z.mul "red ball flies" vectors " " (Some ["jj"; "nn"])
  = Raise AssertionError.
Proof.
  apply (from_sentence_tag_mismatch Z.mul "red ball flies" vectors " "
           ["jj"; "nn"] ["red"; "ball"; "flies"]).
  - reflexivity.
  - reflexivity.
  - cbn. lia.
Defined.

Lemma evaluate_frame_default_op_witness :
  default_op (engine (Tree "Root" [Vec 6%Z])) = default_op (engine flat_tree) /\
  word_vectors (engine (Tree "Root" [Vec 6%Z]))
  = word_vectors (engine flat_tree).
Proof.
  apply (evaluate_frame_default_op Z.sub (engine flat_tree)
           (engine (Tree "Root" [Vec 6%Z]))).
  reflexivity.
Defined.

Lemma evaluate_leaves_labelled_value_witness :
  exists l cs v,
    data (engine sentence_tree) = Tree l cs /\ is_value v = true /\
    engine (Tree "S" [Vec 15%Z])
    = with_data (engine sentence_tree) (Tree l [v]).
Proof.
  apply (evaluate_leaves_labelled_value Z.sub (engine sentence_tree)
           (engine (Tree "S" [Vec 15%Z]))).
  reflexivity.
Defined.

Lemma evaluate_raise_keeps_data_witness :
  with_default_op
    (engine (Tree "S" [Tree "JJ" [Str "red"]; Str "a"; Tree "NN" [Str "ball"]]))
    Z.sub
  = engine (Tree "S" [Tree "JJ" [Str "red"]; Str "a"; Tree "NN" [Str "ball"]])
  \/
  with_default_op
    (engine (Tree "S" [Tree "JJ" [Str "red"]; Str "a"; Tree "NN" [Str "ball"]]))
    Z.sub
  = with_default_op
      (engine (Tree "S" [Tree "JJ" [Str "red"]; Str "a";
                         Tree "NN" [Str "ball"]])) Z.sub.
Proof.
  apply (evaluate_raise_keeps_data Z.sub
           (engine (Tree "S" [Tree "JJ" [Str "red"]; Str "a";
                              Tree "NN" [Str "ball"]]))
           AttributeError).
  reflexivity.
Defined.

Lemma evaluate_twice_raises_witness :
  evaluate Z.sub (engine (Tree "S" [Vec 15%Z]))
  = (Raise TypeError, engine (Tree "S" [Vec 15%Z])).
Proof.
  apply (evaluate_twice_raises Z.sub (engine sentence_tree)).
  reflexivity.
Defined.

Lemma binary_tree_ignores_projection_witness :
  __evaluate Z.sub sentence_tree (engine sentence_tree)
  = __evaluate Z.add sentence_tree (engine sentence_tree).
Proof.
  apply (binary_tree_ignores_projection Z.sub Z.add). reflexivity.
Defined.

Lemma evaluate_all_absent_witness :
  evaluate Z.sub
    (engine (Tree "NP" [Tree "DT" [Str "the"]; Tree "NN" [Str "dog"]]))
  = (Ok tt,
     with_data
       (engine (Tree "NP" [Tree "DT" [Str "the"]; Tree "NN" [Str "dog"]]))
       (Tree "NP" [NoneV])).
Proof.
  apply (evaluate_all_absent Z.sub
           (engine (Tree "NP" [Tree "DT" [Str "the"]; Tree "NN" [Str "dog"]]))
           "NP" [Tree "DT" [Str "the"]; Tree "NN" [Str "dog"]]).
  - reflexivity.
  - reflexivity.
  - repeat constructor.
Defined.

Lemma evaluate_composes_witness :
  __evaluate Z.sub sentence_tree (engine sentence_tree)
  = after_loop Z.sub sentence_tree
      [Tree "NP" [Vec 3%Z]; Tree "VP" [Vec 5%Z]] (engine sentence_tree).
Proof.
  apply (evaluate_composes Z.sub (engine sentence_tree) "S").
  apply Forall2_cons;
    [right; split; [reflexivity | eexists; reflexivity] |].
  apply Forall2_cons;
    [right; split; [reflexivity | eexists; reflexivity] |].
  apply Forall2_nil.
Defined.

Lemma single_child_passes_value_witness :
  exists lc v,
    Tree "VP" [Vec 5%Z] = Tree lc [v] /\
    __evaluate Z.sub (Tree "S" [Tree "VP" [Tree "VBZ" [Str "sits"]]])
      (engine sentence_tree)
    = (Ok (Tree "S" [v]), engine sentence_tree).
Proof.
  apply (single_child_passes_value Z.sub (engine sentence_tree) "S"
           (Tree "VP" [Tree "VBZ" [Str "sits"]]) (Tree "VP" [Vec 5%Z])
           (engine sentence_tree)).
  - reflexivity.
  - reflexivity.
Defined.

Lemma flat_node_left_fold_witness :
  __evaluate Z.sub
    (Tree "Root" (map entry_leaf [("nn", "ball", 7%Z); ("vbz", "flies", 11%Z);
                                  ("nn", "cat", 3%Z)]))
    (engine flat_tree)
  = (Ok (Tree "Root" [Vec (7 * 11 * 3)%Z]), engine flat_tree).
Proof.
  apply (flat_node_left_fold Z.sub (engine flat_tree) "Root"
           ("nn", "ball", 7%Z) [("vbz", "flies", 11%Z); ("nn", "cat", 3%Z)]).
  - repeat constructor.
  - reflexivity.
  - right. reflexivity.
Defined.

Lemma flat_node_right_fold_witness :
  __evaluate Z.sub
    (Tree "Root" (map entry_leaf ([("jj", "red", 2%Z); ("nn", "ball", 7%Z)]
                                  ++ [("vbz", "flies", 11%Z)])))
    (engine flat_tree)
  = (Ok (Tree "Root" [Vec (2 - (7 - 11))%Z]), engine flat_tree).
Proof.
  apply (flat_node_right_fold Z.sub (engine flat_tree) "Root"
           [("jj", "red", 2%Z); ("nn", "ball", 7%Z)] ("vbz", "flies", 11%Z)).
  - cbn. lia.
  - repeat constructor.
  - reflexivity.
  - reflexivity.
Defined.

Lemma folds_iterate_operator_witness :
  __evaluate_left2right (engine flat_tree)
    (map vector_tree [("NP", 2%Z); ("VP", 7%Z); ("PP", 11%Z)])
  = Ok (Tree "NP" [Vec (2 * 7 * 11)%Z]) /\
  __evaluate_right2left (with_default_op (engine flat_tree) Z.sub)
    (map vector_tree ([("NP", 2%Z); ("VP", 7%Z)] ++ [("PP", 11%Z)]))
  = Ok (Tree "PP" [Vec (2 - (7 - 11))%Z]).
Proof.
  split.
  - apply (proj1 (folds_iterate_operator (engine flat_tree)
                    ("NP", 2%Z) ("PP", 11%Z) [("VP", 7%Z); ("PP", 11%Z)] []
                    eq_refl eq_refl)).
  - apply (proj2 (folds_iterate_operator
                    (with_default_op (engine flat_tree) Z.sub)
                    ("NP", 2%Z) ("PP", 11%Z) [] [("NP", 2%Z); ("VP", 7%Z)]
                    eq_refl eq_refl)).
Defined.

Lemma ignored_seed_drops_operands_witness :
  __evaluate_left2right (engine flat_tree)
    (map vector_tree [("dt", 2%Z); ("nn", 7%Z); ("vbz", 11%Z)])
  = Ok (Tree "dt" [Vec 11%Z]) /\
  __evaluate_right2left (engine flat_tree)
    (map vector_tree ([("nn", 7%Z); ("vbz", 11%Z)] ++ [(".", 2%Z)]))
  = Ok (Tree "." [Vec 7%Z]).
Proof.
  apply (ignored_seed_drops_operands (engine flat_tree)
           ("dt", 2%Z) (".", 2%Z) [("nn", 7%Z); ("vbz", 11%Z)]
           [("nn", 7%Z); ("vbz", 11%Z)]); reflexivity.
Defined.

Lemma from_sentence_flat_evaluates_witness :
  length ["jj"; "nn"; "vbz"] = 3 /\
  from_sentence Z.mul "red ball flies" vectors " " (Some ["jj"; "nn"; "vbz"])
  = Ok (engine flat_tree) /\
  tokens flat_tree = ["red"; "ball"; "flies"] /\
  exists v,
    is_value v = true /\
    evaluate Z.sub (engine flat_tree)
    = (Ok tt, engine (Tree "Root" [v])).
Proof.
  apply (from_sentence_flat_evaluates Z.mul Z.sub "red ball flies" vectors " "
           (Some ["jj"; "nn"; "vbz"]) ["red"; "ball"; "flies"]).
  - reflexivity.
  - reflexivity.
  - intros tg H. injection H as <-. reflexivity.
Defined.

Lemma tree_to_binary_keeps_tokens_witness :
  tokens (Tree "S" [Tree "NP" [@Str Z "the"; Str "cat"]; Str "sits"])
  = tokens sentence_tree /\
  internal_nodes (Tree "S" [Tree "NP" [@Str Z "the"; Str "cat"]; Str "sits"])
  + 1 = length (tokens sentence_tree).
Proof.
  apply (tree_to_binary_keeps_tokens 4 sentence_tree). reflexivity.
Defined.

Lemma tree_to_binary_returns_iff_witness :
  ((exists t', tree_to_binary 9
                 (Tree "S" [Tree "NP" [@Str Z "cat"]; Tree "" []])
               = Some (Ok t')) <->
   token_tree (Tree "S" [Tree "NP" [@Str Z "cat"]; Tree "" []]) = true) /\
  (token_tree (Tree "S" [Tree "NP" [@Str Z "cat"]; Tree "" []]) = false ->
   exists e,
     tree_to_binary 9 (Tree "S" [Tree "NP" [@Str Z "cat"]; Tree "" []])
     = Some (Raise e) /\
     (e = TypeError \/ e = AttributeError)).
Proof.
  apply (tree_to_binary_returns_iff 9
           (Tree "S" [Tree "NP" [Str "cat"]; Tree "" []])).
  cbn. lia.
Defined.

Lemma binarized_tree_not_evaluable_witness :
  evaluate Z.sub
    (engine (Tree "S" [Tree "NP" [Str "the"; Str "cat"]; Str "sits"]))
  = (Raise AttributeError,
     engine (Tree "S" [Tree "NP" [Str "the"; Str "cat"]; Str "sits"])).
Proof.
  apply (binarized_tree_not_evaluable Z.sub 4 sentence_tree
           (Tree "S" [Tree "NP" [Str "the"; Str "cat"]; Str "sits"])).
  - reflexivity.
  - reflexivity.
Defined.

Lemma label_classes_disjoint_witness :
  __is_verb "VBZ" = __is_verb "vbz" /\ __is_noun "VBZ" = __is_noun "vbz".
Proof.
  apply (proj1 (label_classes_disjoint "VBZ" "vbz")). reflexivity.
Defined.

(** * Where the code differs from the specification *)

(** C4. Case of the labels.  The adjective test treats a label and its case
    variants alike, but the operator selector does not: with the determiner
    tag in lower case the left operand is dropped, with the same tag in upper
    case the default operator is applied, for every engine and all vectors,
    and so the two spellings of one noun phrase evaluate to 7 and to
    2 * 7. *)
Theorem ignore_membership_case_sensitive :
  lower "DT" = lower "dt" /\
  (forall l l', lower l = lower l' -> __is_adjective l = __is_adjective l') /\
  (forall (V : Type) (self : ParseTree V) (x y : V),
      __binary_operation self "dt" "NN" (Vec x) (Vec y) = Ok (Vec y) /\
      __binary_operation self "DT" "NN" (Vec x) (Vec y)
      = Ok (Vec (default_op self x y))) /\
  fst (__evaluate Z.sub (Tree "NP" [Tree "dt" [Str "red"]; Tree "NN" [Str "ball"]])
         (engine sentence_tree))
  = Ok (Tree "NP" [Vec 7%Z]) /\
  fst (__evaluate Z.sub (Tree "NP" [Tree "DT" [Str "red"]; Tree "NN" [Str "ball"]])
         (engine sentence_tree))
  = Ok (Tree "NP" [Vec 14%Z]).
Proof.
  split; [reflexivity |]. split; [exact is_adjective_case |].
  split; [intros V self x y; apply ignore_list_as_written |].
  split; reflexivity.
Qed.

(** The annotated tree does not keep the branching of the input: the
    sentence tree has two children under its root and nodes below them, the
    tree left by [evaluate] has one payload; it has neither the shape of the
    input nor that of its binarization. *)
Lemma evaluate_keeps_shape_counterexample :
  well_formed sentence_tree = true /\
  at_most_binary sentence_tree = true /\
  evaluate Z.sub (engine sentence_tree)
  = (Ok tt, engine (Tree "S" [Vec 15%Z])) /\
  same_shape sentence_tree (Tree "S" [Vec 15%Z]) = false /\
  tree_to_binary 4 sentence_tree
  = Some (Ok (Tree "S" [Tree "NP" [Str "the"; Str "cat"]; Str "sits"])) /\
  same_shape (Tree "S" [Tree "NP" [Str "the"; Str "cat"]; Str "sits"])
    (Tree "S" [@Vec Z 15%Z]) = false.
Proof. repeat split. Qed.

(** A bracketed string with a node of three children: the constructor keeps
    the three children, and the evaluation is the one for more than two
    children, here the right-to-left fold with the projection operator,
    2 - (7 - 11), and not the product 2 * 7 * 11 of a binarized tree. *)
Lemma bracketed_string_counterexample :
  __init__ bracketed vectors Z.mul = Ok (engine bracketed_tree) /\
  at_most_binary bracketed_tree = false /\
  __evaluate Z.sub bracketed_tree (engine bracketed_tree)
  = __evaluate_greater_than_2 Z.sub
      [Tree "JJ" [Str "red"]; Tree "NN" [Str "ball"]; Tree "VBZ" [Str "flies"]]
      "S" (engine bracketed_tree) /\
  __evaluate Z.sub bracketed_tree (engine bracketed_tree)
  = (Ok (Tree "S" [Vec 6%Z]), engine bracketed_tree) /\
  6%Z <> (2 * 7 * 11)%Z.
Proof. repeat split. discriminate. Qed.

(** The running composite of a fold is not labelled like the parent: after
    the first pairing under the parent [Root] it carries the determiner label
    of the first child, so the second pairing passes the right operand
    through and gives 11; under the label of the parent the pairing would
    have multiplied, 7 * 11. *)
Lemma fold_composite_label_counterexample :
  __evaluate_left2right (engine determiner_tree)
    [Tree "dt" [Str "red"]; Tree "nn" [Str "ball"]]
  = Ok (Tree "dt" [Vec 7%Z]) /\
  "dt" <> "Root" /\
  __evaluate Z.sub determiner_tree (engine determiner_tree)
  = (Ok (Tree "Root" [Vec 11%Z]), engine determiner_tree) /\
  __evaluate_2 (engine determiner_tree) (Tree "Root" [Vec 7%Z])
    (Tree "vbz" [Str "flies"]) "Root"
  = Ok (Tree "Root" [Vec 77%Z]) /\
  __evaluate_right2left (with_default_op (engine flat_tree) Z.sub)
    [Tree "nn" [Str "ball"]; Tree "vbz" [Str "flies"]]
  = Ok (Tree "vbz" [Vec (-4)%Z]).
Proof. repeat split. discriminate. Qed.

(** A tree with at most two children at every node that the binarizer
    changes: the nodes with one child are collapsed into their tokens. *)
Lemma tree_to_binary_counterexample :
  at_most_binary sentence_tree = true /\
  tree_to_binary 4 sentence_tree
  = Some (Ok (Tree "S" [Tree "NP" [Str "the"; Str "cat"]; Str "sits"])) /\
  same_shape sentence_tree
    (Tree "S" [Tree "NP" [Str "the"; Str "cat"]; @Str Z "sits"]) = false /\
  tree_to_binary 3 (Tree "VP" [Tree "VBZ" [@Str Z "sits"]])
  = Some (Ok (Str "sits")).
Proof. repeat split. Qed.

(** Two tags for three tokens: the exception is the [AssertionError] of the
    [assert] statement; no exception of another name is raised. *)
Lemma from_sentence_counterexample :
  str_split "red ball flies" " " = Ok ["red"; "ball"; "flies"] /\
  from_sentence Z.mul "red ball flies" vectors " " (Some ["jj"; "nn"])
  = Raise AssertionError /\
  exn_name AssertionError <> "ShapeMismatchError".
Proof. repeat split. discriminate. Qed.
